(** * Sentiment scoring of tweets against a three-category lexicon

    A shallow embedding of [program.py]: the text sanitizer
    ([sanitize_text]), the lexicon loader ([load_words]), the vectorizer
    ([get_count_vector]), the classifier ([get_classification_vector]) and
    the scorer ([process_tweet]), followed by the properties the
    specification states about them.

    Conventions.
    - A Python [str] is a list of Unicode code points ([N]).
    - The interpreter's Unicode tables (NFKD decomposition, case mapping,
      [str.isalpha], decimal digits) and the tables of the libraries that
      [slugify] calls (transliteration, HTML entity names) are a record
      [unicode]; what the proofs need from them is the class [Lawful].
      [ucd_excerpt] is an instance that carries the rows of those tables
      for ASCII and a handful of other code points.
    - Python exceptions are the type [error]; a function that can raise
      returns a [result].  Arguments are typed, so the [TypeError]
      branches of the source (the [isinstance] checks) have no input.
    - numpy integer vectors are lists of [Z].  The quality index is a
      Python [float], that is an IEEE binary64 number ([PrimFloat.float]),
      computed with the operations and in the order of the source;
      [quality_index_exact] is the same expression in exact arithmetic
      ([Q]), against which the returned value is compared. *)

From Stdlib Require Import String Ascii List NArith ZArith QArith Bool Lia.
From Stdlib Require Import Floats.
Import ListNotations.
Close Scope Q_scope.

(* ------------------------------------------------------------------ *)
(** ** Strings and character classes *)

Module Text.

Definition str := list N.

(** The code points of an ASCII literal. *)
Definition codes (s : string) : str :=
  map N_of_ascii (list_ascii_of_string s).

Definition str_eqb (a b : str) : bool :=
  if list_eq_dec N.eq_dec a b then true else false.

Definition is_empty {A} (l : list A) : bool :=
  match l with [] => true | _ :: _ => false end.

Definition in_range (lo hi c : N) : bool := ((lo <=? c) && (c <=? hi))%N.

Definition is_ascii (c : N) : bool := (c <? 128)%N.
Definition ascii_digit (c : N) : bool := in_range 48 57 c.
Definition ascii_lower (c : N) : bool := in_range 97 122 c.
Definition ascii_upper (c : N) : bool := in_range 65 90 c.
Definition ascii_letter (c : N) : bool := ascii_lower c || ascii_upper c.
Definition ascii_alnum (c : N) : bool := ascii_letter c || ascii_digit c.

Definition SPACE : N := 32.
Definition AMP : N := 38.
Definition QUOTE : N := 39.
Definition COMMA : N := 44.
Definition DASH : N := 45.
Definition HASH : N := 35.
Definition SEMI : N := 59.
Definition LOWER_X : N := 120.

(** [str.lower] on an ASCII code point. *)
Definition ascii_tolower (c : N) : N :=
  if ascii_upper c then (c + 32)%N else c.

(** The code points Python treats as whitespace in [str.strip] and
    [str.split] ([Py_UNICODE_ISSPACE]). *)
Definition py_isspace (c : N) : bool :=
  in_range 9 13 c || in_range 28 32 c
  || (c =? 0x85)%N || (c =? 0xA0)%N || (c =? 0x1680)%N
  || in_range 0x2000 0x200A c
  || (c =? 0x2028)%N || (c =? 0x2029)%N || (c =? 0x202F)%N
  || (c =? 0x205F)%N || (c =? 0x3000)%N.

(** [s.lstrip], [s.rstrip], [s.strip] for a class [p] of characters. *)
Fixpoint lstrip (p : N -> bool) (s : str) : str :=
  match s with
  | [] => []
  | c :: s' => if p c then lstrip p s' else s
  end.

Fixpoint rstrip (p : N -> bool) (s : str) : str :=
  match s with
  | [] => []
  | c :: s' =>
      match rstrip p s' with
      | [] => if p c then [] else [c]
      | r => c :: r
      end
  end.

Definition strip (p : N -> bool) (s : str) : str := rstrip p (lstrip p s).

(** [text.split()]: the maximal runs of non-whitespace, in order.
    [cur] is the token being read, last character first. *)
Fixpoint split_from (cur : str) (s : str) : list str :=
  match s with
  | [] => match cur with [] => [] | _ :: _ => [rev cur] end
  | c :: s' =>
      if py_isspace c
      then match cur with
           | [] => split_from [] s'
           | _ :: _ => rev cur :: split_from [] s'
           end
      else split_from (c :: cur) s'
  end.

Definition split (s : str) : list str := split_from [] s.

(** [text.replace(a, b)] for single characters. *)
Definition replace_char (a b : N) (s : str) : str :=
  map (fun c => if (c =? a)%N then b else c) s.

End Text.
Import Text.

(* ------------------------------------------------------------------ *)
(** ** Unicode and library tables *)

Record unicode := {
  (** [unicodedata.normalize('NFKD', s)] *)
  normalize_NFKD : str -> str;
  (** [s.lower()] *)
  str_lower : str -> str;
  (** [c.isalpha()] for one code point *)
  isalpha_cp : N -> bool;
  (** the value of a decimal digit (category Nd): what [\d] matches and
      [int] reads *)
  digit_value : N -> option N;
  (** [unidecode.unidecode(s)], the transliteration [slugify] applies *)
  unidecode : str -> str;
  (** [html.entities.name2codepoint], by entity name *)
  name2codepoint : str -> option N
}.

(** What the proofs use of the tables: on ASCII text normalisation and
    transliteration change nothing, lowering is the ASCII one, decimal
    digits and letters are the ASCII ones; lowering leaves no capital
    ASCII letter; an entity name is made of ASCII letters and digits. *)
Class Lawful (U : unicode) : Prop := {
  nfkd_ascii : forall s,
    forallb is_ascii s = true -> normalize_NFKD U s = s;
  lower_ascii : forall s,
    forallb is_ascii s = true -> str_lower U s = map ascii_tolower s;
  lower_no_upper : forall s,
    forallb (fun c => negb (ascii_upper c)) (str_lower U s) = true;
  unidecode_ascii : forall s,
    forallb is_ascii s = true -> unidecode U s = s;
  digit_ascii : forall c,
    is_ascii c = true ->
    digit_value U c = if ascii_digit c then Some (c - 48)%N else None;
  isalpha_ascii : forall c,
    is_ascii c = true -> isalpha_cp U c = ascii_letter c;
  entity_name_alnum : forall n c,
    name2codepoint U n = Some c ->
    n <> [] /\ forallb ascii_alnum n = true
}.

(* ------------------------------------------------------------------ *)
(** ** Regular-expression substitutions used by [slugify] *)

Module Regex.

(** [pattern.sub(repl, text)] with a callable [repl], for a pattern whose
    match at a position is computed from the suffix that starts there:
    [m s] is [None] when the pattern does not match at the head of [s],
    and otherwise the replacement ([None] when [repl] raises) with the
    length of the match.  [skip] counts the characters of the last match
    still to be passed.  The result is [None] when [repl] raised. *)
Fixpoint re_sub (m : str -> option (option str * nat)) (skip : nat)
    (s : str) : option str :=
  match s with
  | [] => Some []
  | c :: s' =>
      match skip with
      | S k => re_sub m k s'
      | O =>
          match m s with
          | Some (Some r, len) => option_map (app r) (re_sub m (pred len) s')
          | Some (None, _) => None
          | None => option_map (cons c) (re_sub m 0 s')
          end
      end
  end.

(** A pattern [[class]+] replaced by a constant: every maximal run of
    characters of the class [p] becomes [repl].  [in_run] tells that the
    previous character was of the class. *)
Fixpoint sub_runs (p : N -> bool) (repl : str) (in_run : bool) (s : str)
    : str :=
  match s with
  | [] => []
  | c :: s' =>
      if p c
      then if in_run then sub_runs p repl true s'
           else repl ++ sub_runs p repl true s'
      else c :: sub_runs p repl false s'
  end.

(** The characters before the first [;], when there is one. *)
Fixpoint until_semi (s : str) : option str :=
  match s with
  | [] => None
  | c :: s' =>
      if (c =? SEMI)%N then Some [] else option_map (cons c) (until_semi s')
  end.

(** The longest prefix of digits, as their values, and the rest. *)
Fixpoint read_digits (val : N -> option N) (s : str) : list N * str :=
  match s with
  | [] => ([], [])
  | c :: s' =>
      match val c with
      | Some d => let (ds, r) := read_digits val s' in (d :: ds, r)
      | None => ([], s)
      end
  end.

(** [int(digits, base)] *)
Definition int_of (base : N) (ds : list N) : N :=
  fold_left (fun acc d => (acc * base + d)%N) ds 0%N.

(** [NUMBERS_PATTERN = '(?<=\d),(?=\d)'] replaced by the empty string: a
    comma between two digits goes.  [digit] is the class [\d];
    [after_digit] tells that the previous character of the text is a
    digit. *)
Fixpoint cleanup_numbers (digit : N -> bool) (after_digit : bool) (s : str)
    : str :=
  match s with
  | [] => []
  | c :: s' =>
      if (c =? COMMA)%N && after_digit
         && match s' with d :: _ => digit d | [] => false end
      then cleanup_numbers digit false s'
      else c :: cleanup_numbers digit (digit c) s'
  end.

(** [chr(n)]: raises [ValueError] above U+10FFFF. *)
Definition chr (n : N) : option str :=
  if (n <=? 0x10FFFF)%N then Some [n] else None.

End Regex.
Import Regex.

(* ------------------------------------------------------------------ *)
(** ** The sanitizer *)

Section Sanitizer.

Variable U : unicode.

Definition is_digit (c : N) : bool :=
  match digit_value U c with Some _ => true | None => false end.

(** [[\da-fA-F]]: a decimal digit or a hexadecimal letter, with its value *)
Definition hex_value (c : N) : option N :=
  match digit_value U c with
  | Some d => Some d
  | None =>
      if in_range 97 102 c then Some (c - 87)%N
      else if in_range 65 70 c then Some (c - 55)%N
      else None
  end.

(** [CHAR_ENTITY_PATTERN = '&(name|name|...);'] at the head of [s], replaced
    by [chr(name2codepoint[name])] *)
Definition match_entity (s : str) : option (option str * nat) :=
  match s with
  | c :: rest =>
      if (c =? AMP)%N then
        match until_semi rest with
        | Some name =>
            match name2codepoint U name with
            | Some cp => Some (Some [cp], length name + 2)
            | None => None
            end
        | None => None
        end
      else None
  | [] => None
  end.

(** [DECIMAL_PATTERN = '&#(\d+);'] at the head of [s], replaced by
    [chr(int(digits))] *)
Definition match_decimal (s : str) : option (option str * nat) :=
  match s with
  | a :: h :: rest =>
      if ((a =? AMP) && (h =? HASH))%N then
        match read_digits (digit_value U) rest with
        | (d :: ds, c :: _) =>
            if (c =? SEMI)%N
            then Some (chr (int_of 10 (d :: ds)), length (d :: ds) + 3)
            else None
        | _ => None
        end
      else None
  | _ => None
  end.

(** [HEX_PATTERN = '&#x([\da-fA-F]+);'] at the head of [s], replaced by
    [chr(int(digits, 16))] *)
Definition match_hex (s : str) : option (option str * nat) :=
  match s with
  | a :: h :: x :: rest =>
      if ((a =? AMP) && (h =? HASH) && (x =? LOWER_X))%N then
        match read_digits hex_value rest with
        | (d :: ds, c :: _) =>
            if (c =? SEMI)%N
            then Some (chr (int_of 16 (d :: ds)), length (d :: ds) + 4)
            else None
        | _ => None
        end
      else None
  | _ => None
  end.

(** [try: text = PATTERN.sub(...)  except Exception: pass] *)
Definition sub_or_keep (m : str -> option (option str * nat)) (text : str)
    : str :=
  match re_sub m 0 text with
  | Some t => t
  | None => text
  end.


Definition is_quote (c : N) : bool := (c =? QUOTE)%N.
Definition is_dash (c : N) : bool := (c =? DASH)%N.

(** [DISALLOWED_CHARS_PATTERN = '[^-a-zA-Z0-9]+'] *)
Definition disallowed (c : N) : bool := negb (is_dash c || ascii_alnum c).

(** [slugify.slugify(text)] with its default arguments (python-slugify):
    no replacements, no stop words, no truncation, separator [-]. *)
Definition slugify (text : str) : str :=
  (* replace quotes with dashes - pre-process *)
  let text := sub_runs is_quote [DASH] false text in
  (* normalize text, decode to ASCII *)
  let text := normalize_NFKD U text in
  let text := unidecode U text in
  (* character entity, decimal and hexadecimal references *)
  let text := sub_or_keep match_entity text in
  let text := sub_or_keep match_decimal text in
  let text := sub_or_keep match_hex text in
  (* re normalize text, make it lowercase *)
  let text := normalize_NFKD U text in
  let text := str_lower U text in
  (* remove generated quotes - post-process *)
  let text := sub_runs is_quote [] false text in
  (* cleanup numbers *)
  let text := cleanup_numbers is_digit false text in
  (* replace all other unwanted characters *)
  let text := sub_runs disallowed [DASH] false text in
  (* remove redundant dashes (a run of one dash is replaced by itself) *)
  let text := sub_runs is_dash [DASH] false text in
  strip is_dash text.

Definition sanitize_text (text : str) : str :=
  let text := strip py_isspace text in
  let text := str_lower U text in
  let text := normalize_NFKD U text in
  (* text.encode('ASCII', 'ignore').decode('ASCII') *)
  let text := filter is_ascii text in
  let text := slugify text in
  replace_char DASH SPACE text.

(** [word.isalpha()] *)
Definition str_isalpha (w : str) : bool :=
  negb (is_empty w) && forallb (isalpha_cp U) w.

End Sanitizer.

(* ------------------------------------------------------------------ *)
(** ** An excerpt of the tables *)

(** The rows of the tables for ASCII, for the accented letters of Spanish
    and for the trade mark sign.  A code point without a row is left as
    it is (transliteration drops it); the statements that evaluate the
    excerpt only use text made of code points with a row. *)
Module Excerpt.

(** Latin-1 letters with an acute accent, a tilde or a diaeresis used in
    Spanish text, as (code point, base letter, combining mark). *)
Definition accented : list (N * (N * N)) :=
  [ (0xC1, (0x41, 0x301)); (0xC9, (0x45, 0x301)); (0xCD, (0x49, 0x301));
    (0xD3, (0x4F, 0x301)); (0xDA, (0x55, 0x301)); (0xD1, (0x4E, 0x303));
    (0xDC, (0x55, 0x308));
    (0xE1, (0x61, 0x301)); (0xE9, (0x65, 0x301)); (0xED, (0x69, 0x301));
    (0xF3, (0x6F, 0x301)); (0xFA, (0x75, 0x301)); (0xF1, (0x6E, 0x303));
    (0xFC, (0x75, 0x308)) ]%N.

Fixpoint assoc {A} (k : N) (l : list (N * A)) : option A :=
  match l with
  | [] => None
  | (k', v) :: l' => if (k =? k')%N then Some v else assoc k l'
  end.

(** Compatibility decomposition of one code point: the accented letters
    above, and U+2122 TRADE MARK SIGN, which decomposes to [TM]. *)
Definition nfkd_cp (c : N) : str :=
  match assoc c accented with
  | Some (b, m) => [b; m]
  | None => if (c =? 0x2122)%N then [0x54; 0x4D]%N else [c]
  end.

(** Lower case of one code point: ASCII and the Latin-1 capitals
    (U+00C0..U+00DE but the multiplication sign). *)
Definition lower_cp (c : N) : N :=
  if ascii_upper c then (c + 32)%N
  else if in_range 0xC0 0xDE c && negb (c =? 0xD7)%N then (c + 32)%N
  else c.

(** Letters: ASCII and Latin-1 (U+00C0..U+00FF but the multiplication and
    division signs). *)
Definition alpha_cp (c : N) : bool :=
  ascii_letter c
  || (in_range 0xC0 0xFF c && negb (c =? 0xD7)%N && negb (c =? 0xF7)%N).

Definition digit_cp (c : N) : option N :=
  if ascii_digit c then Some (c - 48)%N else None.

(** Transliteration: ASCII is kept, an accented letter gives its base
    letter, anything else gives nothing. *)
Definition unidecode_cp (c : N) : str :=
  if is_ascii c then [c]
  else match assoc c accented with
       | Some (b, _) => [b]
       | None => []
       end.

Definition entities : list (str * N) :=
  [ (codes "amp", 38); (codes "lt", 60); (codes "gt", 62);
    (codes "quot", 34); (codes "nbsp", 160); (codes "eacute", 233);
    (codes "ntilde", 241) ]%N.

Fixpoint entity (n : str) (l : list (str * N)) : option N :=
  match l with
  | [] => None
  | (k, v) :: l' => if str_eqb n k then Some v else entity n l'
  end.

Definition ucd_excerpt : unicode := {|
  normalize_NFKD := flat_map nfkd_cp;
  str_lower := map lower_cp;
  isalpha_cp := alpha_cp;
  digit_value := digit_cp;
  unidecode := flat_map unidecode_cp;
  name2codepoint := fun n => entity n entities
|}.

End Excerpt.
Import Excerpt.

(* ------------------------------------------------------------------ *)
(** ** Exceptions *)

(** The word collection an exception message names. *)
Inductive collection := Positive | Negative | Neutral | Words.

(** The [ValueError]s the source raises, by message. *)
Inductive error :=
| BadFormat                          (* El archivo no tiene el formato correcto. *)
| NoWordsInFile (c : collection)     (* El archivo no contiene palabras ... *)
| RepeatedWords                      (* El archivo contiene palabras repetidas. *)
| EmptyTweet                         (* El tweet no puede estar vacio. *)
| EmptyCollection (c : collection)   (* El conjunto de palabras ... no puede estar vacio. *)
| NotWords (c : collection).         (* El conjunto de palabras ... debe contener palabras. *)

(** The error kinds of the specification. *)
Inductive error_kind :=
| SchemaError | EmptyCategoryError | InvalidWordError | DuplicateWordError.

Definition kind_of (e : error) : error_kind :=
  match e with
  | BadFormat => SchemaError
  | NoWordsInFile _ | EmptyTweet | EmptyCollection _ => EmptyCategoryError
  | RepeatedWords => DuplicateWordError
  | NotWords _ => InvalidWordError
  end.

Inductive result (A : Type) :=
| Ok (a : A)
| Err (e : error).

Arguments Ok {A} a.
Arguments Err {A} e.

Definition bind {A B} (r : result A) (k : A -> result B) : result B :=
  match r with
  | Ok a => k a
  | Err e => Err e
  end.

Notation "x <- r ;; k" := (bind r (fun x => k))
  (at level 61, r at next level, right associativity).

(** [if cond: raise e], followed by the rest of the body *)
Definition raise_if {A} (cond : bool) (e : error) (k : result A) : result A :=
  if cond then Err e else k.

(* ------------------------------------------------------------------ *)
(** ** JSON values and the schema of the lexicon file *)

Module Json.

(** What [json.load] returns.  The pairs of a [JObject] are the items of
    a [dict]; a key is read with [dict_get]. *)
#[warnings="-register-all"] Inductive json :=
| JNull
| JBool (b : bool)
| JNumber (z : Z)
| JString (s : str)
| JArray (l : list json)
| JObject (o : list (str * json)).

Fixpoint dict_get (k : str) (o : list (str * json)) : option json :=
  match o with
  | [] => None
  | (k', v) :: o' => if str_eqb k k' then Some v else dict_get k o'
  end.

Inductive json_type := TObject | TArray | TString.

(** The keywords of JSON Schema that [WORDS_JSON_SCHEMA] uses.  A keyword
    that a schema leaves out has its default: no properties, no [items],
    nothing required, additional properties allowed. *)
#[warnings="-register-all"] Inductive schema :=
| Schema (type : json_type)
         (properties : list (str * schema))
         (items : option schema)
         (required : list str)
         (additionalProperties : bool).

Definition has_type (t : json_type) (v : json) : bool :=
  match t, v with
  | TObject, JObject _ => true
  | TArray, JArray _ => true
  | TString, JString _ => true
  | _, _ => false
  end.

(** [jsonschema.validate(instance, schema)] does not raise. *)
Fixpoint valid (sc : schema) (v : json) {struct sc} : bool :=
  match sc with
  | Schema type properties items required additionalProperties =>
      has_type type v
      && match v with
         | JObject o =>
             (fix each (ps : list (str * schema)) : bool :=
                match ps with
                | [] => true
                | (k, s) :: ps' =>
                    match dict_get k o with
                    | Some x => valid s x
                    | None => true
                    end && each ps'
                end) properties
             && forallb (fun k => match dict_get k o with
                                  | Some _ => true
                                  | None => false
                                  end) required
             && (additionalProperties
                 || forallb (fun kv => existsb (str_eqb (fst kv))
                                               (map fst properties)) o)
         | JArray l =>
             match items with
             | Some s => forallb (valid s) l
             | None => true
             end
         | _ => true
         end
  end.

(** [words[key]], a list of strings once the schema holds *)
Definition strings_at (key : str) (words : json) : list str :=
  match words with
  | JObject o =>
      match dict_get key o with
      | Some (JArray l) =>
          map (fun x => match x with JString s => s | _ => [] end) l
      | _ => []
      end
  | _ => []
  end.

End Json.
Import Json.

Definition POSITIVE : str := codes "positive".
Definition NEGATIVE : str := codes "negative".
Definition NEUTRAL : str := codes "neutral".

Definition array_of_strings : schema :=
  Schema TArray [] (Some (Schema TString [] None [] true)) [] true.

Definition WORDS_JSON_SCHEMA : schema :=
  Schema TObject
    [ (POSITIVE, array_of_strings);
      (NEGATIVE, array_of_strings);
      (NEUTRAL, array_of_strings) ]
    None
    [POSITIVE; NEGATIVE; NEUTRAL]
    false.

(* ------------------------------------------------------------------ *)
(** ** Lexicon loader, vectorizer, classifier, scorer *)

Section Program.

Variable U : unicode.

Definition str_eq_dec : forall a b : str, {a = b} + {a <> b} :=
  list_eq_dec N.eq_dec.

(** [load_words], from the decoded content of the file on.  The checks on
    the path and the reading of the file come before and are not part of
    the model. *)
Definition load_words (words : json)
    : result (list str * list str * list str * list str) :=
  (* Validaciones de formato *)
  raise_if (negb (valid WORDS_JSON_SCHEMA words)) BadFormat (
  (* Validaciones de contenido *)
  raise_if (is_empty (strings_at POSITIVE words)) (NoWordsInFile Positive) (
  raise_if (is_empty (strings_at NEGATIVE words)) (NoWordsInFile Negative) (
  raise_if (is_empty (strings_at NEUTRAL words)) (NoWordsInFile Neutral) (
  let positive := strings_at POSITIVE words in
  let negative := strings_at NEGATIVE words in
  let neutral := strings_at NEUTRAL words in
  (* Limpiar las palabras *)
  let positive := map (sanitize_text U) positive in
  let negative := map (sanitize_text U) negative in
  let neutral := map (sanitize_text U) neutral in
  let all_words := positive ++ negative ++ neutral in
  (* MAS validaciones de contenido: len(all_words) != len(set(all_words)) *)
  raise_if (negb (length all_words =? length (nodup str_eq_dec all_words)))
    RepeatedWords (
  Ok (positive, negative, neutral, all_words)))))).

(** [enumerate(words)] *)
Definition enumerate {A} (l : list A) : list (nat * A) :=
  combine (seq 0 (length l)) l.

(** [v[i]] and [v[i] = x] on an integer vector; the indices the program
    uses are within the vector. *)
Definition get_item (v : list Z) (i : nat) : Z := nth i v 0%Z.

Fixpoint set_item (v : list Z) (i : nat) (x : Z) : list Z :=
  match v, i with
  | [], _ => []
  | _ :: t, O => x :: t
  | y :: t, S k => y :: set_item t k x
  end.

(** [np.zeros((n,), dtype=int)] *)
Definition zeros (n : nat) : list Z := repeat 0%Z n.

(** The body of [for i, w in enumerate(words)] in [get_count_vector]. *)
Definition count_step (word : str) (cv : list Z) (iw : nat * str) : list Z :=
  let (i, w) := iw in
  if str_eqb w word then set_item cv i (get_item cv i + 1)%Z else cv.

Definition get_count_vector (text : str) (words : list str)
    : result (list Z) :=
  raise_if (is_empty words) (EmptyCollection Words) (
  raise_if (negb (forallb (str_isalpha U) words)) (NotWords Words) (
  let count_vector := zeros (length words) in
  Ok (fold_left
        (fun cv word => fold_left (count_step word) (enumerate words) cv)
        (split text) count_vector))).

(** The body of [for _, word in enumerate(...)] in
    [get_classification_vector], for the slot [slot]. *)
Definition classify_step (slot : nat) (current_word : str) (cv : list Z)
    (iw : nat * str) : list Z :=
  if str_eqb (snd iw) current_word
  then set_item cv slot (get_item cv slot + 1)%Z
  else cv.

Definition get_classification_vector
    (positive_words neutral_words negative_words : list str) (text : str)
    : result (list Z) :=
  raise_if (is_empty positive_words) (EmptyCollection Positive) (
  raise_if (is_empty negative_words) (EmptyCollection Negative) (
  raise_if (is_empty neutral_words) (EmptyCollection Neutral) (
  raise_if (negb (forallb (str_isalpha U) positive_words)) (NotWords Positive) (
  raise_if (negb (forallb (str_isalpha U) negative_words)) (NotWords Negative) (
  raise_if (negb (forallb (str_isalpha U) neutral_words)) (NotWords Neutral) (
  let classification_vector := zeros 3 in
  Ok (fold_left
        (fun cv current_word =>
           let cv := fold_left (classify_step 0 current_word)
                       (enumerate positive_words) cv in
           let cv := fold_left (classify_step 1 current_word)
                       (enumerate neutral_words) cv in
           fold_left (classify_step 2 current_word)
             (enumerate negative_words) cv)
        (split text) classification_vector))))))).

(** [a @ b] on integer vectors *)
Fixpoint dot (a b : list Z) : Z :=
  match a, b with
  | x :: a', y :: b' => (x * y + dot a' b')%Z
  | _, _ => 0%Z
  end.

(** An integer (a Python [int] or a numpy [int64] that is not negative
    and below 2^63) converted to binary64. *)
Definition float_of_Z (z : Z) : float := PrimFloat.of_uint63 (Uint63.of_Z z).

(** [sum(np.dot(1/len(all_words), count_vector))], in binary64 as the
    interpreter computes it: [1/len(all_words)] is one division, every
    count is converted and scaled by it, and [sum] adds the products
    from left to right, starting from 0. *)
Definition quality_index (all_words : list str) (count_vector : list Z)
    : float :=
  let k := PrimFloat.div 1%float (float_of_Z (Z.of_nat (length all_words))) in
  fold_left PrimFloat.add
    (map (fun c => PrimFloat.mul k (float_of_Z c)) count_vector) 0%float.

Definition process_tweet (tweet : str)
    (positive_words negative_words neutral_words all_words : list str)
    : result (Z * float) :=
  raise_if (is_empty tweet) EmptyTweet (
  raise_if (is_empty positive_words) (EmptyCollection Positive) (
  raise_if (is_empty negative_words) (EmptyCollection Negative) (
  raise_if (is_empty neutral_words) (EmptyCollection Neutral) (
  raise_if (is_empty all_words) (EmptyCollection Words) (
  raise_if (negb (forallb (str_isalpha U) positive_words)) (NotWords Positive) (
  raise_if (negb (forallb (str_isalpha U) negative_words)) (NotWords Negative) (
  raise_if (negb (forallb (str_isalpha U) neutral_words)) (NotWords Neutral) (
  raise_if (negb (forallb (str_isalpha U) all_words)) (NotWords Words) (
  (* Crea el vector de conteo *)
  count_vector <- get_count_vector tweet all_words ;;
  (* Crea el vector de clasificacion *)
  classification_vector <-
    get_classification_vector positive_words neutral_words negative_words
      tweet ;;
  (* Crea un vector de pesos *)
  let weight_vector := [1; 0; -1]%Z in
  (* Calcula el valor del tweet *)
  let score := dot classification_vector weight_vector in
  (* Calcula el indice de calidad *)
  Ok (score, quality_index all_words count_vector)))))))))).

End Program.

(** The expression of the quality index in exact arithmetic: what
    [quality_index] would be without rounding. *)
Definition quality_index_exact (all_words : list str)
    (count_vector : list Z) : Q :=
  let k := (1 / inject_Z (Z.of_nat (length all_words)))%Q in
  fold_left Qplus (map (fun c => (k * inject_Z c)%Q) count_vector) 0%Q.


Definition sf_pos_finite (x : spec_float) : bool :=
  match x with
  | S754_finite false _ _ => true
  | _ => false
  end.

(** The size of lexicon up to which the binary64 inverse [1/n] has been
    checked, one [n] after the other, to be a positive normal number. *)
Definition MAX_WORDS : Z := 1048576.

Definition inverse_is_normal (z : Z) : bool :=
  match classify (PrimFloat.div 1 (float_of_Z z)) with
  | PNormal => true
  | _ => false
  end.

(** The check of [inverse_is_normal] on 1, 2, ..., [count]. *)
Definition inverses_state (count : positive) : Z * bool :=
  Pos.iter (fun st => (fst st + 1, snd st && inverse_is_normal (fst st))%Z)
    (1%Z, true) count.

Definition inverses_normal (count : positive) : bool :=
  snd (inverses_state count).

(* ------------------------------------------------------------------ *)
(** ** Predicates of the specification *)

Module Shape.

(** [[a-z0-9]] *)
Definition slug_char (c : N) : bool := ascii_lower c || ascii_digit c.

Definition is_space (c : N) : bool := (c =? SPACE)%N.

(** [[a-z0-9 ]] *)
Definition clean_char (c : N) : bool := slug_char c || is_space c.

(** The first character of [s] is of the class [p]. *)
Definition hd_in (p : N -> bool) (s : str) : bool :=
  match s with
  | [] => false
  | c :: _ => p c
  end.

(** The last character of [s] is of the class [p]. *)
Fixpoint last_in (p : N -> bool) (s : str) : bool :=
  match s with
  | [] => false
  | [c] => p c
  | _ :: s' => last_in p s'
  end.

(** No two characters of the class [p] follow each other in [s]. *)
Fixpoint no_double (p : N -> bool) (s : str) : bool :=
  match s with
  | [] => true
  | c :: s' => negb (p c && hd_in p s') && no_double p s'
  end.

(** Words of [[a-z0-9]] separated by single characters of the class
    [sep]: none of them first, last, or next to another. *)
Definition separated (sep : N -> bool) (s : str) : bool :=
  forallb (fun c => slug_char c || sep c) s
  && negb (hd_in sep s) && negb (last_in sep s) && no_double sep s.

(** The normalized texts: lowercase ASCII letters and digits separated
    by single spaces. *)
Definition canonical (s : str) : bool := separated is_space s.

(** An ASCII character that is neither a letter nor a digit. *)
Definition plain_char (c : N) : bool := is_ascii c && negb (ascii_alnum c).

End Shape.
Import Shape.

(** [slugify] and [sanitize_text] without the table look-ups: what they
    compute on ASCII text that holds no [&] (see [sanitize_text_ascii]). *)
Definition slugify_plain (text : str) : str :=
  let text := sub_runs is_quote [DASH] false text in
  let text := map ascii_tolower text in
  let text := sub_runs is_quote [] false text in
  let text := cleanup_numbers ascii_digit false text in
  let text := sub_runs disallowed [DASH] false text in
  let text := sub_runs is_dash [DASH] false text in
  strip is_dash text.

Definition sanitize_plain (text : str) : str :=
  let text := strip py_isspace text in
  let text := map ascii_tolower text in
  replace_char DASH SPACE (slugify_plain text).

Definition no_amp (c : N) : bool := negb (c =? AMP)%N.

(** [sum(vector)] *)
Definition vsum (v : list Z) : Z := fold_right Z.add 0%Z v.

(** How many words of the list [ws] equal the token [tok]. *)
Definition matches (ws : list str) (tok : str) : nat :=
  count_occ (list_eq_dec N.eq_dec) ws tok.

(** How many tokens of [toks] equal the word [w]. *)
Definition occurrences (toks : list str) (w : str) : nat :=
  count_occ (list_eq_dec N.eq_dec) toks w.

(** The matches of all the tokens together. *)
Definition total_matches (ws toks : list str) : Z :=
  vsum (map (fun tok => Z.of_nat (matches ws tok)) toks).

(** A word list the vectorizer, the classifier and the scorer accept. *)
Definition valid_words (U : unicode) (ws : list str) : Prop :=
  ws <> [] /\ forallb (str_isalpha U) ws = true.

(** Scenario 1 of the specification. *)
Definition tweet_1 : str :=
  codes "hoy es un buen dia, pero el clima esta malo malo".

Definition bueno : str := codes "bueno".
Definition malo : str := codes "malo".
Definition dia : str := codes "dia".

Definition words_file (positive negative neutral : list str) : json :=
  JObject [ (POSITIVE, JArray (map JString positive));
            (NEGATIVE, JArray (map JString negative));
            (NEUTRAL, JArray (map JString neutral)) ].

Definition lexicon_1 : json := words_file [bueno] [malo] [dia].

Definition tweet_1_clean : str :=
  codes "hoy es un buen dia pero el clima esta malo malo".



(** U+2122 TRADE MARK SIGN, a symbol (category So). *)
Definition trade_mark : str := [0x2122%N].

(** [Café], with U+00E9. *)
Definition cafe_accent : str := [0x43; 0x61; 0x66; 0xE9]%N.

(** The keys of the lexicon file. *)
Definition CATEGORY_KEYS : list str := [POSITIVE; NEGATIVE; NEUTRAL].

Definition is_string (v : json) : bool :=
  match v with JString _ => true | _ => false end.

Definition is_array_of_strings (v : json) : bool :=
  match v with JArray l => forallb is_string l | _ => false end.

(** The payload lacks the key [k]: it is no object, or an object
    without it. *)
Definition lacks_key (k : str) (words : json) : Prop :=
  forall o, words = JObject o -> dict_get k o = None.

(** The normalized word [w] is in two categories, or twice in one. *)
Definition repeated_in (P Ng Nu : list str) (w : str) : Prop :=
  (In w P /\ In w Ng) \/ (In w P /\ In w Nu) \/ (In w Ng /\ In w Nu)
  \/ (2 <= count_occ str_eq_dec P w)%nat
  \/ (2 <= count_occ str_eq_dec Ng w)%nat
  \/ (2 <= count_occ str_eq_dec Nu w)%nat.

Definition has_repeated_word (U : unicode) (words : json) : Prop :=
  exists w,
    repeated_in (map (sanitize_text U) (strings_at POSITIVE words))
                (map (sanitize_text U) (strings_at NEGATIVE words))
                (map (sanitize_text U) (strings_at NEUTRAL words)) w.

(** Scenario 3: [Café] among the positive words, [cafe] among the
    negative ones. *)
Definition lexicon_cafe : json :=
  words_file [cafe_accent] [codes "cafe"] [dia].

(** A word twice in one category, and an empty category. *)
Definition lexicon_twice_and_empty : json :=
  words_file [codes "a"; codes "a"] [] [codes "b"].

(** Scenario 4: one key too many. *)
Definition lexicon_extra : json :=
  JObject [ (POSITIVE, JArray [JString bueno]);
            (NEGATIVE, JArray [JString malo]);
            (NEUTRAL, JArray [JString dia]);
            (codes "extra", JArray []) ].

(** Scenario 5: a word with digits. *)
Definition abc123 : str := codes "abc123".

Definition lexicon_abc123 : json := words_file [abc123] [malo] [dia].
(* ------------------------------------------------------------------ *)
(** ** Reading the tweets and the loop of [main] *)

Section Main.

Variable U : unicode.

(** [load_tweets], from the lines of the opened file on: every line is
    sanitized and appended.  The checks on the path come before and are
    not part of the model. *)
Definition load_tweets (lines : list str) : list str :=
  fold_left (fun tweets line => tweets ++ [sanitize_text U line]) lines [].

(** The loop of [main] over the tweets: the first exception ends it,
    otherwise every tweet adds its record to [results]. *)
Fixpoint process_tweets (tweets : list str)
    (positive_words negative_words neutral_words all_words : list str)
    (results : list (str * Z * float))
    : result (list (str * Z * float)) :=
  match tweets with
  | [] => Ok results
  | tweet :: rest =>
      r <- process_tweet U tweet positive_words negative_words
             neutral_words all_words ;;
      process_tweets rest positive_words negative_words neutral_words
        all_words (results ++ [(tweet, fst r, snd r)])
  end.

(** The [results] of [main], from the lines of the tweets file and the
    decoded lexicon file on: the tweets are loaded, then the words, then
    every tweet is processed in order. *)
Definition main_results (lines : list str) (words : json)
    : result (list (str * Z * float)) :=
  let tweets := load_tweets lines in
  lexicon <- load_words U words ;;
  let '(positive_words, negative_words, neutral_words, all_words) :=
    lexicon in
  process_tweets tweets positive_words negative_words neutral_words
    all_words [].

End Main.

(** [sep.join(ws)] *)
Fixpoint join (sep : str) (ws : list str) : str :=
  match ws with
  | [] => []
  | w :: rest =>
      match rest with
      | [] => w
      | _ :: _ => w ++ sep ++ join sep rest
      end
  end.

(** The record [main] appends for a tweet on a valid lexicon. *)
Definition record_of (P Ng A : list str) (tweet : str)
    : str * Z * float :=
  (tweet,
   (total_matches P (split tweet) - total_matches Ng (split tweet))%Z,
   quality_index A
     (map (fun w => Z.of_nat (occurrences (split tweet) w)) A)).

(** Entry by entry sum of two vectors. *)
Definition vadd (a b : list Z) : list Z :=
  map (fun xy => (fst xy + snd xy)%Z) (combine a b).

(* ------------------------------------------------------------------ *)
(** ** Character classes *)

Ltac classes :=
  unfold disallowed, is_dash, is_quote, ascii_alnum, ascii_letter,
    ascii_lower, ascii_upper, ascii_digit, is_ascii, in_range,
    SPACE, AMP, QUOTE, COMMA, DASH, HASH, SEMI, LOWER_X in *.

Ltac bool_to_prop :=
  repeat rewrite ?andb_true_iff, ?orb_true_iff, ?negb_true_iff,
    ?andb_false_iff, ?orb_false_iff, ?negb_false_iff,
    ?N.leb_le, ?N.leb_gt, ?N.ltb_lt, ?N.ltb_ge, ?N.eqb_eq, ?N.eqb_neq in *.

Ltac nlia := classes; bool_to_prop; lia.

(** Decide a boolean test on code points that occurs in the goal. *)
Ltac case_test :=
  match goal with
  | |- context [if ?b then _ else _] =>
      let E := fresh "E" in destruct b eqn:E
  end.

Lemma str_eqb_eq (a b : str) : str_eqb a b = true <-> a = b.
Proof.
  unfold str_eqb. destruct (list_eq_dec N.eq_dec a b); split; congruence.
Qed.

Lemma str_eqb_refl (a : str) : str_eqb a a = true.
Proof. now apply str_eqb_eq. Qed.

Lemma str_eqb_neq (a b : str) : str_eqb a b = false <-> a <> b.
Proof.
  unfold str_eqb. destruct (list_eq_dec N.eq_dec a b); split; congruence.
Qed.

Lemma ascii_tolower_fixes c : ascii_upper c = false -> ascii_tolower c = c.
Proof. unfold ascii_tolower. now intros ->. Qed.

Lemma ascii_tolower_ascii c : is_ascii c = true -> is_ascii (ascii_tolower c) = true.
Proof. unfold ascii_tolower. case_test; nlia. Qed.

Lemma ascii_tolower_not_upper c : ascii_upper (ascii_tolower c) = false.
Proof. unfold ascii_tolower. case_test; nlia. Qed.

(* ------------------------------------------------------------------ *)
(** ** The excerpt satisfies the laws *)

Module ExcerptLaws.

Lemma assoc_accented_ascii c : is_ascii c = true -> assoc c accented = None.
Proof.
  intros H. unfold accented. simpl.
  repeat (case_test; [exfalso; nlia|]). reflexivity.
Qed.

Lemma nfkd_cp_ascii c : is_ascii c = true -> nfkd_cp c = [c].
Proof.
  intros H. unfold nfkd_cp. rewrite assoc_accented_ascii by assumption.
  case_test; [exfalso; nlia | reflexivity].
Qed.

Lemma lower_cp_ascii c : is_ascii c = true -> lower_cp c = ascii_tolower c.
Proof.
  intros H. unfold lower_cp, ascii_tolower.
  case_test; [reflexivity|]. case_test; [exfalso; nlia | reflexivity].
Qed.

Lemma lower_cp_not_upper c : ascii_upper (lower_cp c) = false.
Proof. unfold lower_cp. repeat case_test; nlia. Qed.

Lemma alpha_cp_ascii c : is_ascii c = true -> alpha_cp c = ascii_letter c.
Proof.
  intros H. unfold alpha_cp.
  replace (in_range 192 255 c) with false by (symmetry; nlia).
  now rewrite orb_false_r.
Qed.

Lemma entity_entities n c :
  entity n entities = Some c -> n <> [] /\ forallb ascii_alnum n = true.
Proof.
  unfold entities. simpl.
  repeat (destruct (str_eqb n _) eqn:E;
          [apply str_eqb_eq in E; subst n; intros _; split;
           [discriminate | reflexivity] | clear E]).
  discriminate.
Qed.

Lemma flat_map_singleton (f : N -> str) (p : N -> bool) s :
  (forall c, p c = true -> f c = [c]) ->
  forallb p s = true -> flat_map f s = s.
Proof.
  intros Hf. induction s as [|c s IH]; simpl; [reflexivity|].
  intros [Hc Hs]%andb_true_iff. now rewrite Hf, IH.
Qed.

#[export] Instance ucd_excerpt_lawful : Lawful ucd_excerpt.
Proof.
  constructor; simpl.
  - intros s. apply flat_map_singleton, nfkd_cp_ascii.
  - induction s as [|c s IH]; simpl; [reflexivity|].
    intros [Hc Hs]%andb_true_iff. now rewrite lower_cp_ascii, IH.
  - induction s as [|c s IH]; simpl; [reflexivity|].
    now rewrite lower_cp_not_upper, IH.
  - intros s. apply flat_map_singleton.
    intros c Hc. unfold unidecode_cp. now rewrite Hc.
  - reflexivity.
  - apply alpha_cp_ascii.
  - apply entity_entities.
Qed.

End ExcerptLaws.
Import ExcerptLaws.

(* ------------------------------------------------------------------ *)
(** ** Stripping *)

Section Strip.

Variables p q : N -> bool.

Lemma lstrip_forallb s : forallb q s = true -> forallb q (lstrip p s) = true.
Proof.
  induction s as [|c s IH]; simpl; [reflexivity|].
  intros H. destruct (p c); [|exact H].
  apply andb_true_iff in H. now apply IH.
Qed.

Lemma lstrip_hd s : hd_in p (lstrip p s) = false.
Proof.
  induction s as [|c s IH]; simpl; [reflexivity|].
  destruct (p c) eqn:E; [exact IH | exact E].
Qed.

Lemma lstrip_no_double s :
  no_double q s = true -> no_double q (lstrip p s) = true.
Proof.
  induction s as [|c s IH]; simpl; [reflexivity|].
  intros H. destruct (p c); [|exact H].
  apply andb_true_iff in H. now apply IH.
Qed.

Lemma lstrip_id s : hd_in p s = false -> lstrip p s = s.
Proof. destruct s as [|c s]; simpl; [reflexivity|]. now intros ->. Qed.

Lemma lstrip_all s : forallb p s = true -> lstrip p s = [].
Proof.
  induction s as [|c s IH]; simpl; [reflexivity|].
  intros [-> H]%andb_true_iff. now apply IH.
Qed.

Lemma rstrip_cons c s :
  rstrip p (c :: s) = [] \/ rstrip p (c :: s) = c :: rstrip p s.
Proof.
  simpl. destruct (rstrip p s); [|now right].
  destruct (p c); [now left | now right].
Qed.

Lemma rstrip_forallb s : forallb q s = true -> forallb q (rstrip p s) = true.
Proof.
  induction s as [|c s IH]; [reflexivity|].
  intros [Hc Hs]%andb_true_iff.
  destruct (rstrip_cons c s) as [-> | ->]; [reflexivity|].
  simpl. now rewrite Hc, IH.
Qed.

Lemma rstrip_hd s : hd_in q s = false -> hd_in q (rstrip p s) = false.
Proof.
  destruct s as [|c s]; [reflexivity|]. intros H.
  destruct (rstrip_cons c s) as [-> | ->]; [reflexivity | exact H].
Qed.

Lemma rstrip_last s : last_in p (rstrip p s) = false.
Proof.
  induction s as [|c s IH]; [reflexivity|].
  simpl. destruct (rstrip p s) as [|d r] eqn:E.
  - destruct (p c) eqn:Ec; [reflexivity | simpl; exact Ec].
  - exact IH.
Qed.

Lemma rstrip_no_double s :
  no_double q s = true -> no_double q (rstrip p s) = true.
Proof.
  induction s as [|c s IH]; [reflexivity|].
  intros H. pose proof H as H0. simpl in H0.
  apply andb_true_iff in H0 as [Hc Hs].
  destruct (rstrip_cons c s) as [-> | ->]; [reflexivity|].
  simpl. rewrite (IH Hs), andb_true_r.
  destruct (q c); [|reflexivity]. simpl in *.
  apply negb_true_iff in Hc. now rewrite (rstrip_hd s Hc).
Qed.

Lemma rstrip_id s : last_in p s = false -> rstrip p s = s.
Proof.
  induction s as [|c s IH]; [reflexivity|].
  destruct s as [|d s].
  - simpl. now intros ->.
  - intros H. change (last_in p (d :: s) = false) in H.
    change (rstrip p (c :: d :: s))
      with (match rstrip p (d :: s) with
            | [] => if p c then [] else [c]
            | r => c :: r
            end).
    now rewrite (IH H).
Qed.

Lemma strip_forallb s : forallb q s = true -> forallb q (strip p s) = true.
Proof. intros H. now apply rstrip_forallb, lstrip_forallb. Qed.

Lemma strip_id s :
  hd_in p s = false -> last_in p s = false -> strip p s = s.
Proof. intros H1 H2. unfold strip. now rewrite lstrip_id, rstrip_id. Qed.

Lemma strip_all s : forallb p s = true -> strip p s = [].
Proof. intros H. unfold strip. now rewrite lstrip_all. Qed.

End Strip.

Lemma strip_edges p s :
  hd_in p (strip p s) = false /\ last_in p (strip p s) = false.
Proof.
  split; [apply rstrip_hd, lstrip_hd | apply rstrip_last].
Qed.

Lemma strip_no_double p q s :
  no_double q s = true -> no_double q (strip p s) = true.
Proof. intros H. now apply rstrip_no_double, lstrip_no_double. Qed.

Lemma forallb_impl {A} (p q : A -> bool) (l : list A) :
  (forall x, p x = true -> q x = true) ->
  forallb p l = true -> forallb q l = true.
Proof.
  intros Hpq. induction l as [|x l IH]; simpl; [reflexivity|].
  intros [Hx Hl]%andb_true_iff. now rewrite (Hpq x Hx), IH.
Qed.

Lemma filter_all {A} (p : A -> bool) (l : list A) :
  forallb p l = true -> filter p l = l.
Proof.
  induction l as [|x l IH]; simpl; [reflexivity|].
  intros [-> Hl]%andb_true_iff. now rewrite IH.
Qed.

Lemma map_fixes {A} (f : A -> A) (p : A -> bool) (l : list A) :
  (forall x, p x = true -> f x = x) -> forallb p l = true -> map f l = l.
Proof.
  intros Hf. induction l as [|x l IH]; simpl; [reflexivity|].
  intros [Hx Hl]%andb_true_iff. now rewrite (Hf x Hx), IH.
Qed.

Lemma forallb_map_intro {A} (f : A -> A) (p q : A -> bool) (l : list A) :
  (forall x, p x = true -> q (f x) = true) ->
  forallb p l = true -> forallb q (map f l) = true.
Proof.
  intros Hf. induction l as [|x l IH]; simpl; [reflexivity|].
  intros [Hx Hl]%andb_true_iff. now rewrite (Hf x Hx), IH.
Qed.

(* ------------------------------------------------------------------ *)
(** ** Substitution of runs *)

Section Runs.

Variable p : N -> bool.
Variable repl : str.

Lemma sub_runs_forallb (q : N -> bool) b s :
  forallb q repl = true -> forallb q s = true ->
  forallb q (sub_runs p repl b s) = true.
Proof.
  intros Hr. revert b. induction s as [|c s IH]; intros b; simpl;
    [reflexivity|].
  intros [Hc Hs]%andb_true_iff.
  destruct (p c); [destruct b|].
  - now apply IH.
  - rewrite forallb_app, Hr. now apply IH.
  - simpl. rewrite Hc. now apply IH.
Qed.

Lemma sub_runs_none b s :
  forallb (fun c => negb (p c)) s = true -> sub_runs p repl b s = s.
Proof.
  revert b. induction s as [|c s IH]; intros b; simpl; [reflexivity|].
  intros [Hc Hs]%andb_true_iff. apply negb_true_iff in Hc.
  now rewrite Hc, IH.
Qed.

End Runs.

(** The characters that come out of the replacement of the disallowed
    runs: letters, digits and dashes; no capital when none went in. *)
Lemma sub_runs_disallowed_chars b s :
  forallb (fun c => negb (ascii_upper c)) s = true ->
  forallb (fun c => slug_char c || is_dash c)
          (sub_runs disallowed [DASH] b s) = true.
Proof.
  revert b. induction s as [|c s IH]; intros b; simpl; [reflexivity|].
  intros [Hc Hs]%andb_true_iff.
  destruct (disallowed c) eqn:E; [destruct b|]; simpl.
  - now apply IH.
  - now apply IH.
  - rewrite IH by assumption. rewrite andb_true_r.
    unfold slug_char. nlia.
Qed.

(** After the replacement of the runs of dashes no two dashes are
    adjacent. *)
Lemma sub_runs_dash_no_double b s :
  no_double is_dash (sub_runs is_dash [DASH] b s) = true
  /\ (b = true -> hd_in is_dash (sub_runs is_dash [DASH] b s) = false).
Proof.
  revert b. induction s as [|c s IH]; intros b; simpl.
  - now split.
  - destruct (is_dash c) eqn:E; [destruct b|]; simpl.
    + apply IH.
    + destruct (IH true) as [H1 H2]. rewrite H1, H2 by reflexivity.
      split; [reflexivity | discriminate].
    + destruct (IH false) as [H1 _]. rewrite H1, E. now split.
Qed.

Lemma sub_runs_dash_id b s :
  no_double is_dash s = true ->
  (b = true -> hd_in is_dash s = false) ->
  sub_runs is_dash [DASH] b s = s.
Proof.
  revert b. induction s as [|c s IH]; intros b; simpl; [reflexivity|].
  intros [Hc Hs]%andb_true_iff Hb.
  destruct (is_dash c) eqn:E.
  - destruct b; [now specialize (Hb eq_refl)|].
    simpl in Hc. apply negb_true_iff in Hc.
    simpl. rewrite (IH true) by (auto). f_equal.
    unfold is_dash in E. now apply N.eqb_eq in E.
  - now rewrite (IH false) by (auto; discriminate).
Qed.

Lemma sub_runs_dash_forallb (q : N -> bool) b s :
  forallb q s = true -> forallb q (sub_runs is_dash [DASH] b s) = true.
Proof.
  revert b. induction s as [|c s IH]; intros b; simpl; [reflexivity|].
  intros [Hc Hs]%andb_true_iff.
  destruct (is_dash c) eqn:E; [destruct b|]; simpl.
  - now apply IH.
  - rewrite IH by assumption. rewrite andb_true_r.
    unfold is_dash in E. apply N.eqb_eq in E. now subst c.
  - now rewrite Hc, IH.
Qed.

(* ------------------------------------------------------------------ *)
(** ** The comma between digits *)

Lemma cleanup_numbers_forallb digit (q : N -> bool) b s :
  forallb q s = true -> forallb q (cleanup_numbers digit b s) = true.
Proof.
  revert b. induction s as [|c s IH]; intros b; simpl; [reflexivity|].
  intros [Hc Hs]%andb_true_iff.
  case_test; [now apply IH|]. simpl. now rewrite Hc, IH.
Qed.

Lemma cleanup_numbers_no_comma digit b s :
  forallb (fun c => negb (c =? COMMA)%N) s = true ->
  cleanup_numbers digit b s = s.
Proof.
  revert b. induction s as [|c s IH]; intros b; simpl; [reflexivity|].
  intros [Hc Hs]%andb_true_iff. apply negb_true_iff in Hc.
  rewrite Hc. simpl. now rewrite IH.
Qed.

Lemma cleanup_numbers_ext d1 d2 b s :
  (forall c, is_ascii c = true -> d1 c = d2 c) ->
  forallb is_ascii s = true ->
  cleanup_numbers d1 b s = cleanup_numbers d2 b s.
Proof.
  intros Hd. revert b. induction s as [|c s IH]; intros b; simpl;
    [reflexivity|].
  intros [Hc Hs]%andb_true_iff.
  rewrite (Hd c Hc), !(IH _ Hs).
  destruct s as [|d s]; [reflexivity|].
  simpl in Hs. apply andb_true_iff in Hs as [Hd' _].
  now rewrite (Hd d Hd').
Qed.

(* ------------------------------------------------------------------ *)
(** ** Character references *)

Lemma re_sub_no_match m (q : N -> bool) s :
  (forall c t, q c = true -> forallb q t = true -> m (c :: t) = None) ->
  forallb q s = true -> re_sub m 0 s = Some s.
Proof.
  intros Hm. induction s as [|c s IH]; simpl; [reflexivity|].
  intros [Hc Hs]%andb_true_iff.
  now rewrite (Hm c s Hc Hs), (IH Hs).
Qed.

Lemma until_semi_forallb (q : N -> bool) s name :
  until_semi s = Some name -> forallb q s = true -> forallb q name = true.
Proof.
  revert name. induction s as [|c s IH]; intros name; simpl; [discriminate|].
  destruct (c =? SEMI)%N.
  - intros [= <-]. reflexivity.
  - destruct (until_semi s) as [n|]; [|discriminate].
    intros [= <-] [Hc Hs]%andb_true_iff. simpl. now rewrite Hc, (IH n).
Qed.

(* ------------------------------------------------------------------ *)
(** ** Separated words *)

Lemma separated_iff (sep : N -> bool) s :
  separated sep s = true <->
  forallb (fun c => slug_char c || sep c) s = true
  /\ hd_in sep s = false /\ last_in sep s = false
  /\ no_double sep s = true.
Proof.
  unfold separated.
  rewrite !andb_true_iff, !negb_true_iff. tauto.
Qed.

Lemma separated_map (f : N -> N) (sep sep' : N -> bool) s :
  (forall c, slug_char c || sep c = true ->
             slug_char (f c) || sep' (f c) = true /\ sep' (f c) = sep c) ->
  separated sep s = true -> separated sep' (map f s) = true.
Proof.
  intros Hf. rewrite !separated_iff.
  intros (Hall & Hhd & Hlast & Hdbl).
  assert (Hd : hd_in sep' (map f s) = hd_in sep s).
  { destruct s as [|c s]; [reflexivity|]. simpl in *.
    apply andb_true_iff in Hall as [Hc _]. now apply Hf. }
  assert (Hl : last_in sep' (map f s) = last_in sep s).
  { clear Hhd Hdbl Hd. induction s as [|c s IH]; [reflexivity|].
    simpl in Hall. apply andb_true_iff in Hall as [Hc Hs].
    destruct s as [|d s]; [simpl; now apply Hf|].
    change (last_in sep' (map f (d :: s)) = last_in sep (d :: s)).
    now apply IH. }
  assert (Hn : no_double sep' (map f s) = no_double sep s).
  { clear Hhd Hlast Hdbl Hd Hl. induction s as [|c s IH]; [reflexivity|].
    simpl in Hall. apply andb_true_iff in Hall as [Hc Hs].
    simpl. rewrite (IH Hs). f_equal. f_equal.
    destruct (Hf c Hc) as [_ ->]. f_equal.
    destruct s as [|d s]; [reflexivity|]. simpl in *.
    apply andb_true_iff in Hs as [Hd' _]. now apply Hf. }
  rewrite Hd, Hl, Hn. repeat split; try assumption.
  clear -Hf Hall. induction s as [|c s IH]; [reflexivity|].
  simpl in *. apply andb_true_iff in Hall as [Hc Hs].
  rewrite (proj1 (Hf c Hc)). now apply IH.
Qed.

Lemma dash_to_space c :
  slug_char c || is_dash c = true ->
  slug_char (if (c =? DASH)%N then SPACE else c)
  || is_space (if (c =? DASH)%N then SPACE else c) = true
  /\ is_space (if (c =? DASH)%N then SPACE else c) = is_dash c.
Proof.
  intros H. change (c =? DASH)%N with (is_dash c) in *.
  destruct (is_dash c) eqn:E; [now split|].
  rewrite orb_false_r in H. rewrite H. split; [reflexivity|].
  unfold slug_char, is_space in *. nlia.
Qed.

Lemma space_to_dash c :
  slug_char c || is_space c = true ->
  slug_char (if (c =? SPACE)%N then DASH else c)
  || is_dash (if (c =? SPACE)%N then DASH else c) = true
  /\ is_dash (if (c =? SPACE)%N then DASH else c) = is_space c.
Proof.
  intros H. change (c =? SPACE)%N with (is_space c) in *.
  destruct (is_space c) eqn:E; [now split|].
  rewrite orb_false_r in H. rewrite H. split; [reflexivity|].
  unfold slug_char, is_space in *. nlia.
Qed.

(** Dashes to spaces turns a slug into a normalized text, and back. *)
Lemma replace_dash_canonical s :
  separated is_dash s = true -> canonical (replace_char DASH SPACE s) = true.
Proof. apply separated_map, dash_to_space. Qed.

Lemma replace_space_separated s :
  canonical s = true -> separated is_dash (replace_char SPACE DASH s) = true.
Proof. apply separated_map, space_to_dash. Qed.

Lemma canonical_clean s : canonical s = true -> forallb clean_char s = true.
Proof. intros H. now apply separated_iff in H. Qed.

Lemma replace_round_trip s :
  forallb clean_char s = true ->
  replace_char DASH SPACE (replace_char SPACE DASH s) = s.
Proof.
  intros H. unfold replace_char. rewrite map_map.
  apply map_fixes with (p := clean_char); [|assumption].
  intros c Hc. destruct (c =? SPACE)%N eqn:E.
  - apply N.eqb_eq in E. now subst c.
  - destruct (c =? DASH)%N eqn:E'; [|reflexivity].
    apply N.eqb_eq in E'. subst c. discriminate Hc.
Qed.

(** On a normalized text the disallowed runs are its single spaces. *)
Lemma sub_runs_disallowed_clean b s :
  forallb clean_char s = true ->
  no_double is_space s = true ->
  (b = true -> hd_in is_space s = false) ->
  sub_runs disallowed [DASH] b s = replace_char SPACE DASH s.
Proof.
  revert b. induction s as [|c s IH]; intros b; simpl; [reflexivity|].
  intros [Hc Hs]%andb_true_iff [Hd Hn]%andb_true_iff Hb.
  unfold clean_char in Hc. fold (is_space c).
  destruct (is_space c) eqn:Hsp.
  - destruct b; [now specialize (Hb eq_refl)|].
    simpl in Hd. apply negb_true_iff in Hd.
    replace (disallowed c) with true by (symmetry; unfold is_space in Hsp; nlia).
    simpl. now rewrite (IH true) by auto.
  - rewrite orb_false_r in Hc.
    replace (disallowed c) with false
      by (symmetry; unfold slug_char in Hc; nlia).
    now rewrite (IH false) by (auto; discriminate).
Qed.

(* ------------------------------------------------------------------ *)
(** ** The sanitizer *)

Section SanitizerFacts.

Context (U : unicode) {HU : Lawful U}.

Lemma match_entity_no_amp c t : no_amp c = true -> match_entity U (c :: t) = None.
Proof. unfold no_amp. intros H%negb_true_iff. simpl. now rewrite H. Qed.

Lemma match_decimal_no_amp c t :
  no_amp c = true -> match_decimal U (c :: t) = None.
Proof.
  unfold no_amp. intros H%negb_true_iff.
  destruct t; simpl; [reflexivity | now rewrite H].
Qed.

Lemma match_hex_no_amp c t : no_amp c = true -> match_hex U (c :: t) = None.
Proof.
  unfold no_amp. intros H%negb_true_iff.
  destruct t as [|h [|x t]]; simpl; try reflexivity. now rewrite H.
Qed.

Lemma sub_or_keep_id m (q : N -> bool) s :
  (forall c t, q c = true -> forallb q t = true -> m (c :: t) = None) ->
  forallb q s = true -> sub_or_keep m s = s.
Proof.
  intros Hm Hs. unfold sub_or_keep.
  now rewrite (re_sub_no_match m q s Hm Hs).
Qed.

Lemma is_digit_ascii c : is_ascii c = true -> is_digit U c = ascii_digit c.
Proof.
  intros H. unfold is_digit. rewrite (digit_ascii c H).
  now destruct (ascii_digit c).
Qed.

(** On ASCII text without [&] the tables play no part. *)
Lemma slugify_ascii t :
  forallb is_ascii t = true -> forallb no_amp t = true ->
  slugify U t = slugify_plain t.
Proof.
  intros Ha Hn. unfold slugify, slugify_plain. cbv zeta.
  set (q := sub_runs is_quote [DASH] false t).
  assert (Hqa : forallb is_ascii q = true)
    by (now apply sub_runs_forallb).
  assert (Hqn : forallb no_amp q = true)
    by (now apply sub_runs_forallb).
  rewrite (nfkd_ascii q Hqa), (unidecode_ascii q Hqa).
  rewrite (sub_or_keep_id (match_entity U) no_amp q)
    by (auto using match_entity_no_amp).
  rewrite (sub_or_keep_id (match_decimal U) no_amp q)
    by (auto using match_decimal_no_amp).
  rewrite (sub_or_keep_id (match_hex U) no_amp q)
    by (auto using match_hex_no_amp).
  rewrite (nfkd_ascii q Hqa), (lower_ascii q Hqa).
  rewrite (cleanup_numbers_ext (is_digit U) ascii_digit); [reflexivity| |].
  - apply is_digit_ascii.
  - apply sub_runs_forallb; [reflexivity|].
    revert Hqa. apply forallb_map_intro. apply ascii_tolower_ascii.
Qed.

Lemma sanitize_text_ascii s :
  forallb is_ascii s = true -> forallb no_amp s = true ->
  sanitize_text U s = sanitize_plain s.
Proof.
  intros Ha Hn. unfold sanitize_text, sanitize_plain. cbv zeta.
  set (t := strip py_isspace s).
  assert (Hta : forallb is_ascii t = true) by now apply strip_forallb.
  assert (Htn : forallb no_amp t = true) by now apply strip_forallb.
  rewrite (lower_ascii t Hta).
  set (l := map ascii_tolower t).
  assert (Hla : forallb is_ascii l = true).
  { revert Hta. apply forallb_map_intro. apply ascii_tolower_ascii. }
  assert (Hln : forallb no_amp l = true).
  { assert (H : forallb (fun c => is_ascii c && no_amp c) t = true).
    { clear -Hta Htn. induction t as [|c t IH]; [reflexivity|]. simpl in *.
      apply andb_true_iff in Hta as [-> ?], Htn as [-> ?]. now apply IH. }
    revert H. apply forallb_map_intro.
    intros c Hc. unfold ascii_tolower, no_amp in *. case_test; nlia. }
  rewrite (nfkd_ascii l Hla), (filter_all is_ascii l Hla).
  now rewrite slugify_ascii.
Qed.

(** Whatever the text, the slug is made of words of [[a-z0-9]] separated
    by single dashes. *)
Lemma slugify_separated t : separated is_dash (slugify U t) = true.
Proof.
  unfold slugify. cbv zeta.
  match goal with
  | |- context [cleanup_numbers ?d false ?x] =>
      set (n := cleanup_numbers d false x)
  end.
  assert (Hn : forallb (fun c => negb (ascii_upper c)) n = true).
  { apply cleanup_numbers_forallb, sub_runs_forallb; [reflexivity|].
    apply lower_no_upper. }
  set (u := sub_runs disallowed [DASH] false n).
  assert (Hu : forallb (fun c => slug_char c || is_dash c) u = true)
    by now apply sub_runs_disallowed_chars.
  set (v := sub_runs is_dash [DASH] false u).
  assert (Hv : forallb (fun c => slug_char c || is_dash c) v = true)
    by now apply sub_runs_dash_forallb.
  apply separated_iff. repeat split.
  - now apply strip_forallb.
  - apply strip_edges.
  - apply strip_edges.
  - apply strip_no_double, sub_runs_dash_no_double.
Qed.

Lemma sanitize_text_canonical s : canonical (sanitize_text U s) = true.
Proof. apply replace_dash_canonical, slugify_separated. Qed.

End SanitizerFacts.

(** The normalized texts are fixed points of the sanitizer. *)
Lemma slugify_plain_canonical s :
  canonical s = true -> slugify_plain s = replace_char SPACE DASH s.
Proof.
  intros Hs. pose proof (canonical_clean s Hs) as Hc.
  pose proof (replace_space_separated s Hs) as Hy.
  apply separated_iff in Hs as (_ & Hhd & Hlast & Hdbl).
  apply separated_iff in Hy as (_ & Hyh & Hyl & Hyd).
  assert (Hq : forallb (fun c => negb (is_quote c)) s = true).
  { revert Hc. apply forallb_impl. intros c.
    unfold clean_char, slug_char, is_space. nlia. }
  assert (Hl : map ascii_tolower s = s).
  { apply map_fixes with (p := clean_char); [|assumption].
    intros c H. apply ascii_tolower_fixes.
    unfold clean_char, slug_char, is_space in H. nlia. }
  assert (Hk : forallb (fun c => negb (c =? COMMA)%N) s = true).
  { revert Hc. apply forallb_impl. intros c.
    unfold clean_char, slug_char, is_space. nlia. }
  unfold slugify_plain. cbv zeta.
  rewrite (sub_runs_none is_quote [DASH] false s Hq), Hl.
  rewrite (sub_runs_none is_quote [] false s Hq).
  rewrite (cleanup_numbers_no_comma ascii_digit false s Hk).
  rewrite (sub_runs_disallowed_clean false s Hc Hdbl)
    by discriminate.
  rewrite (sub_runs_dash_id false _ Hyd) by discriminate.
  now apply strip_id.
Qed.

Lemma sanitize_plain_canonical s : canonical s = true -> sanitize_plain s = s.
Proof.
  intros Hs. pose proof (canonical_clean s Hs) as Hc.
  unfold sanitize_plain. cbv zeta.
  assert (Hst : strip py_isspace s = s).
  { apply separated_iff in Hs as (_ & Hhd & Hlast & _).
    apply strip_id.
    - destruct s as [|c s]; [reflexivity|]. simpl in *.
      apply andb_true_iff in Hc as [Hc _].
      unfold clean_char, slug_char, is_space, py_isspace in *. nlia.
    - clear Hhd. induction s as [|c s IH]; [reflexivity|].
      simpl in Hc. apply andb_true_iff in Hc as [Hc Hcs].
      destruct s as [|d s].
      + simpl in *.
        unfold clean_char, slug_char, is_space, py_isspace in *. nlia.
      + now apply IH. }
  rewrite Hst.
  rewrite (map_fixes ascii_tolower clean_char)
    by (auto; intros c H; apply ascii_tolower_fixes;
        unfold clean_char, slug_char, is_space in H; nlia).
  rewrite slugify_plain_canonical by assumption.
  now apply replace_round_trip.
Qed.

(* ------------------------------------------------------------------ *)
(** ** Integer vectors *)

Lemma get_item_app pre x post : get_item (pre ++ x :: post) (length pre) = x.
Proof.
  unfold get_item. induction pre as [|y pre IH]; simpl; [reflexivity | exact IH].
Qed.

Lemma set_item_app pre x post v :
  set_item (pre ++ x :: post) (length pre) v = pre ++ v :: post.
Proof.
  induction pre as [|y pre IH]; simpl; [reflexivity | now rewrite IH].
Qed.

Lemma zeros_map {A} (l : list A) : zeros (length l) = map (fun _ => 0%Z) l.
Proof.
  unfold zeros. induction l as [|x l IH]; simpl; [reflexivity | now rewrite IH].
Qed.

Lemma vsum_cons x v : vsum (x :: v) = (x + vsum v)%Z.
Proof. reflexivity. Qed.

Lemma vsum_app a b : vsum (a ++ b) = (vsum a + vsum b)%Z.
Proof.
  unfold vsum. induction a as [|x a IH]; simpl; [reflexivity | lia].
Qed.

Lemma vsum_map_add {A} (f g : A -> Z) l :
  vsum (map (fun x => (f x + g x)%Z) l) = (vsum (map f l) + vsum (map g l))%Z.
Proof.
  unfold vsum. induction l as [|x l IH]; simpl; [reflexivity | lia].
Qed.

Lemma vsum_nonneg v : Forall (fun x => (0 <= x)%Z) v -> (0 <= vsum v)%Z.
Proof.
  unfold vsum. induction 1 as [|x v Hx Hv IH]; simpl; lia.
Qed.

(* ------------------------------------------------------------------ *)
(** ** The loops of the vectorizer and of the classifier *)

Lemma str_eqb_dec (a b : str) :
  str_eqb a b = if list_eq_dec N.eq_dec a b then true else false.
Proof. reflexivity. Qed.

(** One pass of [for i, w in enumerate(words)]: the slot of every word
    equal to the token goes up by one. *)
Lemma count_pass word ws :
  forall pre mid,
  length mid = length ws ->
  fold_left (count_step word) (combine (seq (length pre) (length ws)) ws)
            (pre ++ mid)
  = pre ++ map (fun xw => if str_eqb (snd xw) word
                          then (fst xw + 1)%Z else fst xw)
               (combine mid ws).
Proof.
  induction ws as [|w ws IH]; intros pre mid Hlen.
  - destruct mid; [reflexivity | discriminate].
  - destruct mid as [|x mid]; [discriminate|].
    injection Hlen as Hlen. simpl.
    replace (pre ++ (if str_eqb w word then (x + 1)%Z else x) :: _)
      with ((pre ++ [if str_eqb w word then (x + 1)%Z else x])
            ++ map (fun xw => if str_eqb (snd xw) word
                              then (fst xw + 1)%Z else fst xw)
                   (combine mid ws))
      by (now rewrite <- app_assoc).
    rewrite <- (IH _ mid Hlen). rewrite length_app, Nat.add_1_r.
    f_equal. rewrite <- app_assoc. simpl.
    destruct (str_eqb w word); [|reflexivity].
    now rewrite get_item_app, set_item_app.
Qed.

Lemma count_pass_map word ws (c : str -> Z) :
  fold_left (count_step word) (enumerate ws) (map c ws)
  = map (fun w => if str_eqb w word then (c w + 1)%Z else c w) ws.
Proof.
  unfold enumerate.
  pose proof (count_pass word ws [] (map c ws) (length_map c ws)) as H.
  cbn [app length] in H. rewrite H. clear H.
  induction ws as [|w ws IH]; simpl; [reflexivity | now rewrite IH].
Qed.

(** All the passes: the slot of a word holds its occurrences among the
    tokens. *)
Lemma count_loop toks : forall ws (c : str -> Z),
  fold_left (fun cv word => fold_left (count_step word) (enumerate ws) cv)
            toks (map c ws)
  = map (fun w => (c w + Z.of_nat (occurrences toks w))%Z) ws.
Proof.
  induction toks as [|tok toks IH]; intros ws c; simpl.
  - apply map_ext. intros w. lia.
  - rewrite count_pass_map, IH. apply map_ext. intros w.
    unfold occurrences. simpl. rewrite str_eqb_dec.
    destruct (list_eq_dec N.eq_dec tok w) as [->|Hne].
    + destruct (list_eq_dec N.eq_dec w w); [lia | congruence].
    + destruct (list_eq_dec N.eq_dec w tok); [congruence | lia].
Qed.

(** One pass of a loop of the classifier: the slot goes up by the number
    of words equal to the token. *)
Lemma classify_pass tok l : forall pre x post,
  fold_left (classify_step (length pre) tok) l (pre ++ x :: post)
  = pre ++ (x + Z.of_nat (matches (map snd l) tok))%Z :: post.
Proof.
  induction l as [|[i w] l IH]; intros pre x post; simpl.
  - now rewrite Z.add_0_r.
  - unfold classify_step at 2. simpl snd. rewrite str_eqb_dec.
    unfold matches. simpl.
    destruct (list_eq_dec N.eq_dec w tok) as [->|Hne].
    + rewrite get_item_app, set_item_app, IH. unfold matches.
      do 2 f_equal. lia.
    + now rewrite IH.
Qed.

Lemma classify_pass_0 tok l a b c :
  fold_left (classify_step 0 tok) l [a; b; c]
  = [(a + Z.of_nat (matches (map snd l) tok))%Z; b; c].
Proof. exact (classify_pass tok l [] a [b; c]). Qed.

Lemma classify_pass_1 tok l a b c :
  fold_left (classify_step 1 tok) l [a; b; c]
  = [a; (b + Z.of_nat (matches (map snd l) tok))%Z; c].
Proof. exact (classify_pass tok l [a] b [c]). Qed.

Lemma classify_pass_2 tok l a b c :
  fold_left (classify_step 2 tok) l [a; b; c]
  = [a; b; (c + Z.of_nat (matches (map snd l) tok))%Z].
Proof. exact (classify_pass tok l [a; b] c []). Qed.

Lemma snd_enumerate {A} (l : list A) : map snd (enumerate l) = l.
Proof.
  unfold enumerate. generalize 0. induction l as [|x l IH]; intros k;
    simpl; [reflexivity | now rewrite IH].
Qed.

Lemma classify_loop P Nu Ng toks : forall a b c,
  fold_left
    (fun cv current_word =>
       let cv := fold_left (classify_step 0 current_word) (enumerate P) cv in
       let cv := fold_left (classify_step 1 current_word) (enumerate Nu) cv in
       fold_left (classify_step 2 current_word) (enumerate Ng) cv)
    toks [a; b; c]
  = [ (a + total_matches P toks)%Z;
      (b + total_matches Nu toks)%Z;
      (c + total_matches Ng toks)%Z ].
Proof.
  induction toks as [|tok toks IH]; intros a b c.
  - unfold total_matches. simpl. now rewrite !Z.add_0_r.
  - cbn [fold_left]. cbv zeta.
    rewrite classify_pass_0, classify_pass_1, classify_pass_2.
    rewrite !snd_enumerate, IH.
    unfold total_matches. cbn [map]. rewrite !vsum_cons.
    f_equal; [|f_equal; [|f_equal]]; lia.
Qed.

(** Counting by word and counting by token give the same total. *)
Lemma vsum_occurrences ws toks :
  vsum (map (fun w => Z.of_nat (occurrences toks w)) ws)
  = total_matches ws toks.
Proof.
  unfold total_matches. induction toks as [|tok toks IH].
  - simpl. induction ws as [|w ws IHw]; [reflexivity|].
    unfold vsum in *. simpl. now rewrite IHw.
  - cbn [map]. rewrite vsum_cons, <- IH. clear IH.
    induction ws as [|w ws IHw]; [reflexivity|].
    cbn [map]. rewrite !vsum_cons, IHw. unfold occurrences, matches. simpl.
    destruct (list_eq_dec N.eq_dec tok w) as [->|Hne].
    + destruct (list_eq_dec N.eq_dec w w); [lia | congruence].
    + destruct (list_eq_dec N.eq_dec w tok); [congruence | lia].
Qed.

Section Loops.

Variable U : unicode.

Lemma is_empty_false {A} {l : list A} : l <> [] -> is_empty l = false.
Proof. destruct l; [congruence | reflexivity]. Qed.

Lemma get_count_vector_valid text ws :
  valid_words U ws ->
  get_count_vector U text ws
  = Ok (map (fun w => Z.of_nat (occurrences (split text) w)) ws).
Proof.
  intros [Hne Ha]. unfold get_count_vector, raise_if.
  rewrite (is_empty_false Hne), Ha. simpl. f_equal.
  rewrite zeros_map. rewrite count_loop. apply map_ext. intros w. lia.
Qed.

Lemma get_classification_vector_valid P Nu Ng text :
  valid_words U P -> valid_words U Nu -> valid_words U Ng ->
  get_classification_vector U P Nu Ng text
  = Ok [ total_matches P (split text);
         total_matches Nu (split text);
         total_matches Ng (split text) ].
Proof.
  intros [HP HPa] [HNu HNua] [HNg HNga].
  unfold get_classification_vector, raise_if.
  rewrite (is_empty_false HP), (is_empty_false HNu), (is_empty_false HNg),
    HPa, HNua, HNga. simpl negb. cbv iota zeta. f_equal.
  change (zeros 3) with [0; 0; 0]%Z. now rewrite classify_loop.
Qed.

End Loops.

(* ------------------------------------------------------------------ *)
(** ** Signs in binary64 *)











Lemma inverse_is_normal_pos z :
  inverse_is_normal z = true ->
  sf_pos_finite (Prim2SF (PrimFloat.div 1 (float_of_Z z))) = true.
Proof.
  unfold inverse_is_normal. rewrite classify_spec.
  unfold SF64classify, SFclassify.
  destruct (Prim2SF _) as [[]|[]| |[] m e]; try discriminate;
    [destruct (_ =? _)%Z; discriminate | reflexivity].
Qed.

Lemma inverses_state_spec count :
  fst (inverses_state count) = (1 + Zpos count)%Z
  /\ (snd (inverses_state count) = true ->
      forall z, (1 <= z <= Zpos count)%Z -> inverse_is_normal z = true).
Proof.
  unfold inverses_state.
  induction count as [|count IH] using Pos.peano_ind.
  - cbn [Pos.iter fst snd]. split; [reflexivity|].
    intros H z Hz. assert (z = 1%Z) by lia. subst z.
    now apply andb_true_iff in H.
  - rewrite Pos.iter_succ. destruct IH as [Hf Hs].
    set (st := Pos.iter _ _ count) in *. cbn [fst snd].
    rewrite Pos2Z.inj_succ. split; [lia|].
    intros H z Hz. apply andb_true_iff in H as [H1 H2].
    destruct (Z.eq_dec z (1 + Z.pos count)) as [->|Hne].
    + now rewrite <- Hf.
    + apply Hs; [assumption | lia].
Qed.

Lemma inverses_normal_checked count :
  inverses_normal count = true ->
  forall z, (1 <= z <= Zpos count)%Z -> inverse_is_normal z = true.
Proof. exact (proj2 (inverses_state_spec count)). Qed.

Lemma inverses_normal_max : inverses_normal 1048576 = true.
Proof. vm_compute. reflexivity. Qed.

Lemma inverse_normal z : (1 <= z <= MAX_WORDS)%Z -> inverse_is_normal z = true.
Proof. exact (inverses_normal_checked 1048576 inverses_normal_max z). Qed.

Lemma inverse_pos_finite z :
  (1 <= z <= MAX_WORDS)%Z ->
  sf_pos_finite (Prim2SF (PrimFloat.div 1 (float_of_Z z))) = true.
Proof. intros Hz. now apply inverse_is_normal_pos, inverse_normal. Qed.




Lemma mul_pos_finite_zero k :
  sf_pos_finite (Prim2SF k) = true -> PrimFloat.mul k 0 = 0%float.
Proof.
  intros Hk. apply Prim2SF_inj. rewrite mul_spec.
  destruct (Prim2SF k) as [[]|[]| |[] m e]; try discriminate. reflexivity.
Qed.

(** When every count is 0 the quality index is [+0]. *)
Lemma quality_index_zeros A cv :
  (1 <= Z.of_nat (length A) <= MAX_WORDS)%Z ->
  Forall (fun c => c = 0%Z) cv ->
  quality_index A cv = 0%float.
Proof.
  intros HA Hcv. unfold quality_index. cbv zeta.
  pose proof (mul_pos_finite_zero _ (inverse_pos_finite _ HA)) as Hk.
  set (k := PrimFloat.div 1 _) in *. clearbody k.
  induction Hcv as [|c cv -> _ IH]; [reflexivity|].
  cbn [map fold_left]. change (float_of_Z 0) with 0%float.
  rewrite Hk. exact IH.
Qed.

(* ------------------------------------------------------------------ *)
(** ** The scorer on valid input *)

Lemma quality_index_exact_fold (k : Q) cv : forall acc : Q,
  (fold_left Qplus (map (fun c => k * inject_Z c) cv) acc
   == acc + k * inject_Z (vsum cv))%Q.
Proof.
  induction cv as [|c cv IH]; intros acc; cbn [map fold_left].
  - unfold vsum. simpl. ring.
  - rewrite IH, vsum_cons, inject_Z_plus. ring.
Qed.

Lemma quality_index_exact_ratio A cv :
  (quality_index_exact A cv
   == inject_Z (vsum cv) / inject_Z (Z.of_nat (length A)))%Q.
Proof.
  unfold quality_index_exact. cbv zeta. rewrite quality_index_exact_fold.
  unfold Qdiv. ring.
Qed.


Section Scorer.

Context (U : unicode).

Lemma process_tweet_valid tweet P Ng Nu A :
  tweet <> [] ->
  valid_words U P -> valid_words U Ng -> valid_words U Nu ->
  valid_words U A ->
  process_tweet U tweet P Ng Nu A
  = Ok ((total_matches P (split tweet) - total_matches Ng (split tweet))%Z,
        quality_index A
          (map (fun w => Z.of_nat (occurrences (split tweet) w)) A)).
Proof.
  intros Ht HP HNg HNu HA. unfold process_tweet, raise_if.
  rewrite (get_count_vector_valid U tweet A HA).
  rewrite (get_classification_vector_valid U P Nu Ng tweet HP HNu HNg).
  destruct HP as [HP HPa], HNg as [HNg HNga], HNu as [HNu HNua],
    HA as [HA HAa].
  rewrite (is_empty_false Ht), (is_empty_false HP), (is_empty_false HNg),
    (is_empty_false HNu), (is_empty_false HA), HPa, HNga, HNua, HAa.
  simpl. do 2 f_equal. lia.
Qed.

Context {HU : Lawful U}.

Lemma str_isalpha_ascii w :
  forallb is_ascii w = true ->
  str_isalpha U w = negb (is_empty w) && forallb ascii_letter w.
Proof.
  intros H. unfold str_isalpha. f_equal.
  induction w as [|c w IH]; [reflexivity|]. simpl in *.
  apply andb_true_iff in H as [Hc Hw].
  now rewrite (isalpha_ascii c Hc), (IH Hw).
Qed.

Lemma valid_words_ascii ws :
  ws <> [] ->
  forallb (fun w => negb (is_empty w) && forallb ascii_letter w) ws = true ->
  valid_words U ws.
Proof.
  intros Hne H. split; [assumption|]. revert H. apply forallb_impl.
  intros w Hw. rewrite str_isalpha_ascii; [assumption|].
  apply andb_true_iff in Hw as [_ Hw]. revert Hw. apply forallb_impl.
  intros c. nlia.
Qed.

End Scorer.

(* ------------------------------------------------------------------ *)
(** ** The loader *)

Lemma nodup_length_le (l : list str) :
  (length (nodup str_eq_dec l) <= length l)%nat.
Proof.
  induction l as [|x l IH]; simpl; [lia|].
  destruct (in_dec str_eq_dec x l); simpl; lia.
Qed.

(** [len(l) == len(set(l))] says that no element of [l] is repeated. *)
Lemma nodup_length_iff (l : list str) :
  length l = length (nodup str_eq_dec l) <-> NoDup l.
Proof.
  split.
  - induction l as [|x l IH]; simpl; [constructor|].
    destruct (in_dec str_eq_dec x l) as [Hin|Hin]; simpl.
    + pose proof (nodup_length_le l). lia.
    + intros [= H]. constructor; auto.
  - intros H. now rewrite nodup_fixed_point.
Qed.

Section Loader.

Variable U : unicode.

Lemma load_words_unfold words :
  valid WORDS_JSON_SCHEMA words = true ->
  strings_at POSITIVE words <> [] ->
  strings_at NEGATIVE words <> [] ->
  strings_at NEUTRAL words <> [] ->
  let P := map (sanitize_text U) (strings_at POSITIVE words) in
  let Ng := map (sanitize_text U) (strings_at NEGATIVE words) in
  let Nu := map (sanitize_text U) (strings_at NEUTRAL words) in
  load_words U words
  = if (length (P ++ Ng ++ Nu)
        =? length (nodup str_eq_dec (P ++ Ng ++ Nu)))%nat
    then Ok (P, Ng, Nu, P ++ Ng ++ Nu)
    else Err RepeatedWords.
Proof.
  intros Hv HP HNg HNu. unfold load_words, raise_if.
  rewrite Hv, (is_empty_false HP), (is_empty_false HNg),
    (is_empty_false HNu). simpl negb. cbv iota zeta.
  now destruct (_ =? _)%nat.
Qed.

End Loader.

(* ------------------------------------------------------------------ *)
(** ** Properties of the sanitizer *)

Lemma canonical_ascii s : canonical s = true -> forallb is_ascii s = true.
Proof.
  intros H. apply canonical_clean in H. revert H. apply forallb_impl.
  intros c. unfold clean_char, slug_char, is_space. nlia.
Qed.

Lemma canonical_no_amp s : canonical s = true -> forallb no_amp s = true.
Proof.
  intros H. apply canonical_clean in H. revert H. apply forallb_impl.
  intros c. unfold clean_char, slug_char, is_space, no_amp. nlia.
Qed.

(** C5. The sanitizer is idempotent: sanitizing a sanitized text gives
    it back. *)
Theorem sanitize_text_idempotent (U : unicode) (HU : Lawful U) (s : str) :
  sanitize_text U (sanitize_text U s) = sanitize_text U s.
Proof.
  pose proof (sanitize_text_canonical U s) as H.
  rewrite sanitize_text_ascii
    by (auto using canonical_ascii, canonical_no_amp).
  now apply sanitize_plain_canonical.
Qed.

Lemma sanitize_text_idempotent_witness :
  sanitize_text ucd_excerpt (sanitize_text ucd_excerpt cafe_accent)
  = sanitize_text ucd_excerpt cafe_accent.
Proof.
  exact (sanitize_text_idempotent ucd_excerpt ucd_excerpt_lawful cafe_accent).
Defined.

(* ------------------------------------------------------------------ *)
(** ** Text without letters or digits *)

Lemma plain_char_ascii s :
  forallb plain_char s = true -> forallb is_ascii s = true.
Proof.
  apply forallb_impl. intros c H. now apply andb_true_iff in H.
Qed.

Lemma sub_runs_disallowed_plain b s :
  forallb plain_char s = true ->
  forallb is_dash (sub_runs disallowed [DASH] b s) = true.
Proof.
  revert b. induction s as [|c s IH]; intros b; simpl; [reflexivity|].
  intros [Hc Hs]%andb_true_iff.
  destruct (disallowed c) eqn:E; [destruct b|]; simpl.
  - now apply IH.
  - now apply IH.
  - rewrite IH by assumption. rewrite andb_true_r.
    unfold plain_char in Hc. unfold disallowed in E.
    apply negb_false_iff, orb_true_iff in E as [E|E]; [exact E|].
    apply andb_true_iff in Hc as [_ Hc]. now rewrite E in Hc.
Qed.

Section PlainText.

Context (U : unicode) {HU : Lawful U}.

Lemma match_entity_plain c t :
  plain_char c = true -> forallb plain_char t = true ->
  match_entity U (c :: t) = None.
Proof.
  intros Hc Ht. simpl. destruct (c =? AMP)%N; [|reflexivity].
  destruct (until_semi t) as [name|] eqn:En; [|reflexivity].
  destruct (name2codepoint U name) as [cp|] eqn:Ec; [|reflexivity].
  exfalso. destruct (entity_name_alnum name cp Ec) as [Hne Hal].
  pose proof (until_semi_forallb plain_char t name En Ht) as Hp.
  destruct name as [|d name]; [congruence|]. simpl in Hal, Hp.
  apply andb_true_iff in Hal as [Hd _], Hp as [Hd' _].
  unfold plain_char in Hd'. rewrite Hd in Hd'.
  now rewrite andb_false_r in Hd'.
Qed.

Lemma match_decimal_plain c t :
  plain_char c = true -> forallb plain_char t = true ->
  match_decimal U (c :: t) = None.
Proof.
  intros Hc Ht. destruct t as [|h rest]; [reflexivity|].
  simpl. destruct ((c =? AMP)%N && (h =? HASH)%N); [|reflexivity].
  destruct rest as [|r rest]; [reflexivity|].
  simpl in Ht. apply andb_true_iff in Ht as [_ Ht].
  apply andb_true_iff in Ht as [Hr _].
  unfold plain_char in Hr. apply andb_true_iff in Hr as [Hra Hrn].
  simpl. rewrite (digit_ascii r Hra).
  replace (ascii_digit r) with false; [reflexivity|].
  symmetry. unfold ascii_alnum in Hrn.
  apply negb_true_iff, orb_false_iff in Hrn. tauto.
Qed.

Lemma match_hex_plain c t :
  plain_char c = true -> forallb plain_char t = true ->
  match_hex U (c :: t) = None.
Proof.
  intros Hc Ht. destruct t as [|h [|x rest]]; try reflexivity.
  simpl in Ht. apply andb_true_iff in Ht as [_ Ht].
  apply andb_true_iff in Ht as [Hx _].
  simpl. replace (x =? LOWER_X)%N with false; [now rewrite andb_false_r|].
  symmetry. unfold plain_char in Hx. nlia.
Qed.

(** A text of ASCII characters none of which is a letter or a digit has
    the empty slug. *)
Lemma slugify_plain_chars t : forallb plain_char t = true -> slugify U t = [].
Proof.
  intros Ht. unfold slugify. cbv zeta.
  set (q := sub_runs is_quote [DASH] false t).
  assert (Hq : forallb plain_char q = true)
    by (now apply sub_runs_forallb).
  pose proof (plain_char_ascii q Hq) as Hqa.
  rewrite (nfkd_ascii q Hqa), (unidecode_ascii q Hqa).
  rewrite (sub_or_keep_id (match_entity U) plain_char q)
    by (auto using match_entity_plain).
  rewrite (sub_or_keep_id (match_decimal U) plain_char q)
    by (auto using match_decimal_plain).
  rewrite (sub_or_keep_id (match_hex U) plain_char q)
    by (auto using match_hex_plain).
  rewrite (nfkd_ascii q Hqa), (lower_ascii q Hqa).
  rewrite (map_fixes ascii_tolower plain_char q)
    by (auto; intros c Hc; apply ascii_tolower_fixes;
        unfold plain_char in Hc; nlia).
  apply strip_all, sub_runs_dash_forallb, sub_runs_disallowed_plain,
    cleanup_numbers_forallb, sub_runs_forallb; [reflexivity | exact Hq].
Qed.

End PlainText.

(* ------------------------------------------------------------------ *)
(** ** What the boolean shape says *)

Lemma last_in_snoc p t c : last_in p (t ++ [c]) = p c.
Proof.
  induction t as [|d t IH]; [reflexivity|].
  simpl. destruct (t ++ [c]) eqn:E; [|exact IH].
  now destruct t.
Qed.

Lemma no_double_middle p a c d b :
  no_double p (a ++ c :: d :: b) = true -> p c && p d = false.
Proof.
  induction a as [|x a IH]; simpl.
  - intros [H _]%andb_true_iff. now apply negb_true_iff in H.
  - intros [_ H]%andb_true_iff. now apply IH.
Qed.

Lemma forallb_Forall_clean s :
  forallb clean_char s = true ->
  Forall (fun c => ascii_lower c = true \/ ascii_digit c = true
                   \/ c = SPACE) s.
Proof.
  intros H. apply Forall_forall. intros c Hc.
  rewrite forallb_forall in H. specialize (H c Hc).
  unfold clean_char, slug_char, is_space in H.
  apply orb_true_iff in H as [H|H].
  - apply orb_true_iff in H. tauto.
  - apply N.eqb_eq in H. tauto.
Qed.

Lemma filter_ascii_plain x :
  forallb (fun c => negb (ascii_alnum c)) (filter is_ascii x) = true ->
  forallb plain_char (filter is_ascii x) = true.
Proof.
  induction x as [|c x IH]; [reflexivity|]. cbn [filter].
  destruct (is_ascii c) eqn:E; [|exact IH]. cbn [forallb].
  intros [Hc Hx]%andb_true_iff. apply andb_true_iff. split; [|auto].
  unfold plain_char. now rewrite E, Hc.
Qed.

(** C6, as amended.  Every character of a sanitized text is a lowercase
    ASCII letter, an ASCII digit or a space; the text neither starts nor
    ends with a space and holds no two spaces in a row; and it is empty
    when the text left by the first four steps (trimming, lowering, NFKD,
    removal of what is not ASCII) holds no ASCII letter and no digit. *)
Theorem sanitize_text_shape (U : unicode) (HU : Lawful U) (s : str) :
  Forall (fun c => ascii_lower c = true \/ ascii_digit c = true
                   \/ c = SPACE) (sanitize_text U s)
  /\ (forall t, sanitize_text U s <> SPACE :: t)
  /\ (forall t, sanitize_text U s <> t ++ [SPACE])
  /\ (forall a b, sanitize_text U s <> a ++ SPACE :: SPACE :: b)
  /\ (forallb (fun c => negb (ascii_alnum c))
        (filter is_ascii
           (normalize_NFKD U (str_lower U (strip py_isspace s)))) = true ->
      sanitize_text U s = []).
Proof.
  pose proof (sanitize_text_canonical U s) as H.
  apply separated_iff in H as (Hall & Hhd & Hlast & Hdbl).
  repeat split.
  - now apply forallb_Forall_clean.
  - intros t E. rewrite E in Hhd. discriminate Hhd.
  - intros t E. rewrite E, last_in_snoc in Hlast. discriminate Hlast.
  - intros a b E. rewrite E in Hdbl.
    apply no_double_middle in Hdbl. discriminate Hdbl.
  - intros Hn. unfold sanitize_text. cbv zeta.
    rewrite (@slugify_plain_chars U HU); [reflexivity|].
    now apply filter_ascii_plain.
Qed.

Lemma sanitize_text_shape_witness :
  forallb (fun c => negb (ascii_alnum c))
    (filter is_ascii
       (normalize_NFKD ucd_excerpt
          (str_lower ucd_excerpt (strip py_isspace (codes " -- &;!? ")))))
  = true
  /\ sanitize_text ucd_excerpt (codes " -- &;!? ") = [].
Proof.
  split; [reflexivity|].
  apply (sanitize_text_shape ucd_excerpt ucd_excerpt_lawful
           (codes " -- &;!? ")).
  reflexivity.
Defined.

(** The claim C6 as first stated fails on a trade mark sign: it is
    neither a letter nor a digit, and its sanitized text is [tm]. *)
Lemma sanitize_text_trade_mark :
  forallb (fun c => negb (isalpha_cp ucd_excerpt c || is_digit ucd_excerpt c))
          trade_mark = true
  /\ sanitize_text ucd_excerpt trade_mark = codes "tm"
  /\ sanitize_text ucd_excerpt trade_mark <> [].
Proof.
  split; [reflexivity | split; [reflexivity|]].
  intros H. vm_compute in H. discriminate H.
Qed.

(* ------------------------------------------------------------------ *)
(** ** Vectorizer, classifier and scorer *)

(** C10. On valid word lists the classification vector holds, slot by
    slot, the sums of the count vectors of the three lists. *)
Theorem classification_is_sum_of_counts (U : unicode)
    (P Nu Ng : list str) (t : str) :
  valid_words U P -> valid_words U Nu -> valid_words U Ng ->
  exists cvP cvNu cvNg,
    get_count_vector U t P = Ok cvP
    /\ get_count_vector U t Nu = Ok cvNu
    /\ get_count_vector U t Ng = Ok cvNg
    /\ get_classification_vector U P Nu Ng t
       = Ok [vsum cvP; vsum cvNu; vsum cvNg].
Proof.
  intros HP HNu HNg.
  exists (map (fun w => Z.of_nat (occurrences (split t) w)) P),
         (map (fun w => Z.of_nat (occurrences (split t) w)) Nu),
         (map (fun w => Z.of_nat (occurrences (split t) w)) Ng).
  repeat split; try now apply get_count_vector_valid.
  rewrite !vsum_occurrences. now apply get_classification_vector_valid.
Qed.

Lemma classification_is_sum_of_counts_witness :
  exists cvP cvNu cvNg,
    get_count_vector ucd_excerpt tweet_1_clean [bueno] = Ok cvP
    /\ get_count_vector ucd_excerpt tweet_1_clean [dia] = Ok cvNu
    /\ get_count_vector ucd_excerpt tweet_1_clean [malo] = Ok cvNg
    /\ get_classification_vector ucd_excerpt [bueno] [dia] [malo]
         tweet_1_clean
       = Ok [vsum cvP; vsum cvNu; vsum cvNg].
Proof.
  apply (classification_is_sum_of_counts ucd_excerpt
           [bueno] [dia] [malo] tweet_1_clean);
    (split; [discriminate | reflexivity]).
Defined.

(** C2. On valid input the score is the first slot of the
    classification vector minus its third slot: the matches of the
    positive words minus the matches of the negative words.  Neither the
    neutral words nor the list of all the words has a part in it. *)
Theorem score_is_positive_minus_negative (U : unicode)
    (tweet : str) (P Ng Nu A : list str) :
  tweet <> [] ->
  valid_words U P -> valid_words U Ng -> valid_words U Nu ->
  valid_words U A ->
  exists cv q,
    get_classification_vector U P Nu Ng tweet = Ok cv
    /\ process_tweet U tweet P Ng Nu A
       = Ok ((nth 0 cv 0 - nth 2 cv 0)%Z, q)
    /\ nth 0 cv 0%Z = total_matches P (split tweet)
    /\ nth 2 cv 0%Z = total_matches Ng (split tweet)
    /\ forall Nu' A', valid_words U Nu' -> valid_words U A' ->
       exists q', process_tweet U tweet P Ng Nu' A'
                  = Ok ((nth 0 cv 0 - nth 2 cv 0)%Z, q').
Proof.
  intros Ht HP HNg HNu HA. eexists. eexists.
  split; [now apply get_classification_vector_valid|].
  split; [now apply process_tweet_valid|].
  split; [reflexivity|]. split; [reflexivity|].
  intros Nu' A' HNu' HA'. eexists. now apply process_tweet_valid.
Qed.

Lemma score_is_positive_minus_negative_witness :
  exists cv q,
    get_classification_vector ucd_excerpt [bueno] [dia] [malo] tweet_1_clean
    = Ok cv
    /\ process_tweet ucd_excerpt tweet_1_clean [bueno] [malo] [dia]
         [bueno; malo; dia]
       = Ok ((nth 0 cv 0 - nth 2 cv 0)%Z, q)
    /\ nth 0 cv 0%Z = total_matches [bueno] (split tweet_1_clean)
    /\ nth 2 cv 0%Z = total_matches [malo] (split tweet_1_clean)
    /\ forall Nu' A',
       valid_words ucd_excerpt Nu' -> valid_words ucd_excerpt A' ->
       exists q', process_tweet ucd_excerpt tweet_1_clean [bueno] [malo]
                    Nu' A'
                  = Ok ((nth 0 cv 0 - nth 2 cv 0)%Z, q').
Proof.
  apply (score_is_positive_minus_negative ucd_excerpt tweet_1_clean
           [bueno] [malo] [dia] [bueno; malo; dia]);
    [discriminate | | | | ]; (split; [discriminate | reflexivity]).
Defined.


Lemma valid_words_length U A :
  valid_words U A -> (1 <= Z.of_nat (length A))%Z.
Proof. intros [HA _]. destruct A; [congruence | simpl; lia]. Qed.




Lemma total_matches_cons ws tok toks :
  total_matches ws (tok :: toks)
  = (Z.of_nat (matches ws tok) + total_matches ws toks)%Z.
Proof. reflexivity. Qed.

(** When no token matches more than one word, the matches are at most
    the tokens, and as many exactly when every token matches a word. *)
Lemma total_matches_bound ws toks :
  (forall tok, (matches ws tok <= 1)%nat) ->
  (total_matches ws toks <= Z.of_nat (length toks))%Z
  /\ (total_matches ws toks = Z.of_nat (length toks)
      <-> Forall (fun tok => matches ws tok = 1%nat) toks).
Proof.
  intros Hone. induction toks as [|tok toks [IHle IHeq]].
  - split; [reflexivity|]. split; [constructor | reflexivity].
  - rewrite total_matches_cons. cbn [length]. specialize (Hone tok).
    split; [lia|]. split.
    + intros H. constructor; [lia|]. apply IHeq. lia.
    + intros H. inversion H as [|? ? H1 H2]; subst.
      apply IHeq in H2. lia.
Qed.

(** C4, as amended.  For a valid list of words none of which is repeated,
    the sum of the count vector is at most the number of tokens of the
    text, and equal to it exactly when every token matches one word of
    the list. *)
Theorem count_conservation (U : unicode) (t : str) (W : list str) :
  valid_words U W -> NoDup W ->
  exists cv,
    get_count_vector U t W = Ok cv
    /\ (vsum cv <= Z.of_nat (length (split t)))%Z
    /\ (vsum cv = Z.of_nat (length (split t))
        <-> Forall (fun tok => matches W tok = 1%nat) (split t)).
Proof.
  intros HW Hnd. eexists. split; [now apply get_count_vector_valid|].
  rewrite vsum_occurrences. apply total_matches_bound.
  intros tok. unfold matches. now apply NoDup_count_occ.
Qed.

Lemma count_conservation_witness :
  exists cv,
    get_count_vector ucd_excerpt tweet_1_clean [bueno; malo; dia] = Ok cv
    /\ (vsum cv <= Z.of_nat (length (split tweet_1_clean)))%Z
    /\ (vsum cv = Z.of_nat (length (split tweet_1_clean))
        <-> Forall (fun tok => matches [bueno; malo; dia] tok = 1%nat)
                   (split tweet_1_clean)).
Proof.
  apply (count_conservation ucd_excerpt tweet_1_clean [bueno; malo; dia]).
  - split; [discriminate | reflexivity].
  - repeat constructor; simpl; intuition discriminate.
Defined.

(** The claim C4 as first stated fails when the list repeats a word: one
    token, and a count vector of sum two. *)
Lemma count_conservation_repeated_word :
  valid_words ucd_excerpt [codes "a"; codes "a"]
  /\ get_count_vector ucd_excerpt (codes "a") [codes "a"; codes "a"]
     = Ok [1; 1]%Z
  /\ length (split (codes "a")) = 1%nat
  /\ ~ (vsum [1; 1] <= Z.of_nat (length (split (codes "a"))))%Z.
Proof.
  split; [split; [discriminate | reflexivity]|].
  split; [reflexivity|]. split; [reflexivity|].
  vm_compute. intros H. now apply H.
Qed.

(* ------------------------------------------------------------------ *)
(** ** Scenario 1 *)

Lemma load_words_ok (U : unicode) words :
  valid WORDS_JSON_SCHEMA words = true ->
  strings_at POSITIVE words <> [] ->
  strings_at NEGATIVE words <> [] ->
  strings_at NEUTRAL words <> [] ->
  NoDup (map (sanitize_text U) (strings_at POSITIVE words)
         ++ map (sanitize_text U) (strings_at NEGATIVE words)
         ++ map (sanitize_text U) (strings_at NEUTRAL words)) ->
  load_words U words
  = Ok (map (sanitize_text U) (strings_at POSITIVE words),
        map (sanitize_text U) (strings_at NEGATIVE words),
        map (sanitize_text U) (strings_at NEUTRAL words),
        map (sanitize_text U) (strings_at POSITIVE words)
        ++ map (sanitize_text U) (strings_at NEGATIVE words)
        ++ map (sanitize_text U) (strings_at NEUTRAL words)).
Proof.
  intros Hv HP HNg HNu Hnd.
  rewrite (load_words_unfold U words Hv HP HNg HNu). cbv zeta.
  apply nodup_length_iff in Hnd. rewrite <- Hnd.
  now rewrite Nat.eqb_refl.
Qed.

Lemma load_words_ok_inv U words r :
  load_words U words = Ok r ->
  valid WORDS_JSON_SCHEMA words = true
  /\ strings_at POSITIVE words <> []
  /\ strings_at NEGATIVE words <> []
  /\ strings_at NEUTRAL words <> []
  /\ NoDup (map (sanitize_text U) (strings_at POSITIVE words)
            ++ map (sanitize_text U) (strings_at NEGATIVE words)
            ++ map (sanitize_text U) (strings_at NEUTRAL words))
  /\ r = (map (sanitize_text U) (strings_at POSITIVE words),
          map (sanitize_text U) (strings_at NEGATIVE words),
          map (sanitize_text U) (strings_at NEUTRAL words),
          map (sanitize_text U) (strings_at POSITIVE words)
          ++ map (sanitize_text U) (strings_at NEGATIVE words)
          ++ map (sanitize_text U) (strings_at NEUTRAL words)).
Proof.
  unfold load_words, raise_if.
  destruct (valid WORDS_JSON_SCHEMA words); [|discriminate]. simpl negb.
  cbv iota.
  destruct (strings_at POSITIVE words) as [|p ps] eqn:EP; [discriminate|].
  destruct (strings_at NEGATIVE words) as [|n ns] eqn:EN; [discriminate|].
  destruct (strings_at NEUTRAL words) as [|u us] eqn:EU; [discriminate|].
  simpl is_empty. cbv iota zeta.
  destruct (_ =? _)%nat eqn:E; [|discriminate]. simpl negb. cbv iota.
  intros [= <-]. apply Nat.eqb_eq, nodup_length_iff in E.
  repeat split; try discriminate. exact E.
Qed.

(** C1.  Scenario 1: the lexicon [bueno] / [malo] / [dia] loads as it
    is; the tweet sanitizes to the text without the comma; the
    classification vector is [0, 1, 2], the count vector over all the
    words [0, 2, 1], the score -2 and the quality index the binary64
    number 1, which is the exact value 3/3 of its expression. *)
Theorem scenario_1 (U : unicode) (HU : Lawful U) :
  load_words U lexicon_1 = Ok ([bueno], [malo], [dia], [bueno; malo; dia])
  /\ sanitize_text U tweet_1 = tweet_1_clean
  /\ get_classification_vector U [bueno] [dia] [malo] (sanitize_text U tweet_1)
     = Ok [0; 1; 2]%Z
  /\ get_count_vector U (sanitize_text U tweet_1) [bueno; malo; dia]
     = Ok [0; 2; 1]%Z
  /\ process_tweet U (sanitize_text U tweet_1) [bueno] [malo] [dia]
       [bueno; malo; dia] = Ok ((-2)%Z, 1%float)
  /\ (quality_index_exact [bueno; malo; dia] [0; 2; 1]%Z == 3 # 3)%Q
  /\ (quality_index_exact [bueno; malo; dia] [0; 2; 1]%Z == 1)%Q.
Proof.
  assert (Hs : sanitize_text U tweet_1 = tweet_1_clean).
  { rewrite (@sanitize_text_ascii U HU) by (vm_compute; reflexivity).
    vm_compute. reflexivity. }
  assert (Hw : forall w, In w [bueno; malo; dia] -> sanitize_text U w = w).
  { intros w Hw. rewrite (@sanitize_text_ascii U HU).
    - simpl in Hw. intuition subst; vm_compute; reflexivity.
    - simpl in Hw. intuition subst; reflexivity.
    - simpl in Hw. intuition subst; reflexivity. }
  assert (HP : valid_words U [bueno])
    by (apply (@valid_words_ascii U HU); [discriminate | reflexivity]).
  assert (HNg : valid_words U [malo])
    by (apply (@valid_words_ascii U HU); [discriminate | reflexivity]).
  assert (HNu : valid_words U [dia])
    by (apply (@valid_words_ascii U HU); [discriminate | reflexivity]).
  assert (HA : valid_words U [bueno; malo; dia])
    by (apply (@valid_words_ascii U HU); [discriminate | reflexivity]).
  rewrite Hs. repeat apply conj.
  - assert (E1 : strings_at POSITIVE lexicon_1 = [bueno]) by reflexivity.
    assert (E2 : strings_at NEGATIVE lexicon_1 = [malo]) by reflexivity.
    assert (E3 : strings_at NEUTRAL lexicon_1 = [dia]) by reflexivity.
    rewrite load_words_ok.
    + rewrite E1, E2, E3. cbn [map app].
      rewrite !Hw by (simpl; tauto). reflexivity.
    + reflexivity.
    + rewrite E1. discriminate.
    + rewrite E2. discriminate.
    + rewrite E3. discriminate.
    + rewrite E1, E2, E3. cbn [map app].
      rewrite !Hw by (simpl; tauto).
      repeat constructor; simpl; intuition discriminate.
  - reflexivity.
  - rewrite get_classification_vector_valid by assumption; reflexivity.
  - rewrite get_count_vector_valid by assumption; reflexivity.
  - rewrite process_tweet_valid by (assumption || discriminate).
    vm_compute. reflexivity.
  - reflexivity.
  - reflexivity.
Qed.

Lemma scenario_1_witness :
  sanitize_text ucd_excerpt tweet_1 = tweet_1_clean
  /\ get_classification_vector ucd_excerpt [bueno] [dia] [malo]
       (sanitize_text ucd_excerpt tweet_1) = Ok [0; 1; 2]%Z.
Proof.
  pose proof (scenario_1 ucd_excerpt ucd_excerpt_lawful) as H.
  split; apply H.
Defined.

(* ------------------------------------------------------------------ *)
(** ** The lexicon file *)

Lemma valid_string x : valid (Schema TString [] None [] true) x = is_string x.
Proof. now destruct x. Qed.

Lemma valid_array_of_strings v :
  valid array_of_strings v = is_array_of_strings v.
Proof.
  destruct v; try reflexivity.
  change (valid array_of_strings (JArray l))
    with (forallb (valid (Schema TString [] None [] true)) l).
  unfold is_array_of_strings.
  induction l as [|x l IH]; [reflexivity|].
  cbn [forallb]. now rewrite valid_string, IH.
Qed.

(** The schema on an object, keyword by keyword: [properties],
    [required], [additionalProperties]. *)
Lemma valid_words_schema o :
  valid WORDS_JSON_SCHEMA (JObject o)
  = forallb (fun k => match dict_get k o with
                      | Some x => is_array_of_strings x
                      | None => true
                      end) CATEGORY_KEYS
    && forallb (fun k => match dict_get k o with
                         | Some _ => true
                         | None => false
                         end) CATEGORY_KEYS
    && forallb (fun kv => existsb (str_eqb (fst kv)) CATEGORY_KEYS) o.
Proof.
  unfold WORDS_JSON_SCHEMA, CATEGORY_KEYS.
  cbn [valid has_type andb orb map fst forallb].
  destruct (dict_get POSITIVE o), (dict_get NEGATIVE o),
    (dict_get NEUTRAL o);
    rewrite ?valid_array_of_strings; reflexivity.
Qed.

Lemma existsb_str_eqb k l : existsb (str_eqb k) l = true <-> In k l.
Proof.
  rewrite existsb_exists. split.
  - intros (x & Hx & E). apply str_eqb_eq in E. now subst.
  - intros H. exists k. split; [assumption | apply str_eqb_refl].
Qed.

(** C8.  A payload that lacks one of the keys [positive], [negative],
    [neutral], or has a key besides them, or holds under one of them a
    value that is not an array of strings, is refused for its format. *)
Theorem load_words_schema_rejection (U : unicode) (words : json) :
  (exists k, In k CATEGORY_KEYS /\ lacks_key k words)
  \/ (exists o k v, words = JObject o /\ In (k, v) o
                    /\ ~ In k CATEGORY_KEYS)
  \/ (exists o k v, words = JObject o /\ In k CATEGORY_KEYS
                    /\ dict_get k o = Some v
                    /\ is_array_of_strings v = false) ->
  load_words U words = Err BadFormat
  /\ kind_of BadFormat = SchemaError.
Proof.
  intros H. split; [|reflexivity].
  assert (Hv : valid WORDS_JSON_SCHEMA words = false).
  { destruct H as [(k & Hk & Hl) | [(o & k & v & -> & Hin & Hk)
                                   | (o & k & v & -> & Hk & Hg & Hv)]].
    - destruct words as [| | | | |o]; try reflexivity.
      rewrite valid_words_schema. specialize (Hl o eq_refl).
      apply andb_false_iff. left. apply andb_false_iff. right.
      apply not_true_is_false. intros Hall.
      rewrite forallb_forall in Hall. specialize (Hall k Hk).
      now rewrite Hl in Hall.
    - rewrite valid_words_schema. apply andb_false_iff. right.
      apply not_true_is_false. intros Hall.
      rewrite forallb_forall in Hall. specialize (Hall (k, v) Hin).
      now apply existsb_str_eqb in Hall.
    - rewrite valid_words_schema.
      apply andb_false_iff. left. apply andb_false_iff. left.
      apply not_true_is_false. intros Hall.
      rewrite forallb_forall in Hall. specialize (Hall k Hk).
      rewrite Hg in Hall. congruence. }
  unfold load_words, raise_if. now rewrite Hv.
Qed.

Lemma load_words_schema_rejection_witness :
  load_words ucd_excerpt lexicon_extra = Err BadFormat
  /\ kind_of BadFormat = SchemaError.
Proof.
  apply (load_words_schema_rejection ucd_excerpt lexicon_extra).
  right. left.
  exists [ (POSITIVE, JArray [JString bueno]);
           (NEGATIVE, JArray [JString malo]);
           (NEUTRAL, JArray [JString dia]);
           (codes "extra", JArray []) ], (codes "extra"), (JArray []).
  split; [reflexivity|]. split; [simpl; tauto|].
  simpl. intuition discriminate.
Defined.

Lemma repeated_not_NoDup P Ng Nu w :
  repeated_in P Ng Nu w -> ~ NoDup (P ++ Ng ++ Nu).
Proof.
  intros H Hnd.
  pose proof (proj1 (NoDup_count_occ str_eq_dec (P ++ Ng ++ Nu)) Hnd w)
    as Hle.
  rewrite !count_occ_app in Hle.
  pose proof (count_occ_In str_eq_dec P w) as HP.
  pose proof (count_occ_In str_eq_dec Ng w) as HNg.
  pose proof (count_occ_In str_eq_dec Nu w) as HNu.
  unfold repeated_in in H.
  destruct H as [[H1 H2] | [[H1 H2] | [[H1 H2] | [H | [H | H]]]]];
    try lia.
  - apply HP in H1. apply HNg in H2. lia.
  - apply HP in H1. apply HNu in H2. lia.
  - apply HNg in H1. apply HNu in H2. lia.
Qed.

(** C7, as amended.  On a payload in which a normalized word is in two
    categories or twice in one, [load_words] never succeeds; it fails for
    the repeated word when the payload passes the checks that come
    first, the format and the three non-empty categories. *)
Theorem load_words_repeated_word (U : unicode) (words : json) :
  has_repeated_word U words ->
  (forall r, load_words U words <> Ok r)
  /\ (valid WORDS_JSON_SCHEMA words = true ->
      strings_at POSITIVE words <> [] ->
      strings_at NEGATIVE words <> [] ->
      strings_at NEUTRAL words <> [] ->
      load_words U words = Err RepeatedWords
      /\ kind_of RepeatedWords = DuplicateWordError).
Proof.
  intros [w Hw]. apply repeated_not_NoDup in Hw.
  rewrite <- nodup_length_iff in Hw. apply Nat.eqb_neq in Hw.
  split.
  - intros r. unfold load_words, raise_if.
    destruct (negb _); [discriminate|].
    do 3 (destruct (is_empty _); [discriminate|]).
    cbv zeta. now rewrite Hw.
  - intros Hv HP HNg HNu. split; [|reflexivity].
    rewrite (load_words_unfold U words Hv HP HNg HNu). cbv zeta.
    now rewrite Hw.
Qed.

Lemma load_words_repeated_word_witness :
  has_repeated_word ucd_excerpt lexicon_cafe
  /\ load_words ucd_excerpt lexicon_cafe = Err RepeatedWords
  /\ kind_of RepeatedWords = DuplicateWordError.
Proof.
  assert (H : has_repeated_word ucd_excerpt lexicon_cafe).
  { exists (codes "cafe"). left. split; left; reflexivity. }
  split; [exact H|].
  apply (load_words_repeated_word ucd_excerpt lexicon_cafe H);
    [reflexivity | discriminate | discriminate | discriminate].
Defined.

(** The claim C7 as first stated fails when an earlier check fires: here
    a word is twice among the positive words and there is no negative
    word, and the failure is the one of the empty category. *)
Lemma load_words_twice_and_empty :
  has_repeated_word ucd_excerpt lexicon_twice_and_empty
  /\ load_words ucd_excerpt lexicon_twice_and_empty
     = Err (NoWordsInFile Negative)
  /\ kind_of (NoWordsInFile Negative) <> DuplicateWordError.
Proof.
  split; [|split; [reflexivity | discriminate]].
  exists (codes "a"). right. right. right. left.
  vm_compute. apply le_n.
Qed.

(** The words of scenario 5 are left as they are by the sanitizer, and
    the first of them is not alphabetic. *)
Lemma lexicon_abc123_words (U : unicode) (HU : Lawful U) :
  (forall w, In w [abc123; malo; dia] -> sanitize_text U w = w)
  /\ str_isalpha U abc123 = false.
Proof.
  split.
  - intros w Hw. rewrite (@sanitize_text_ascii U HU).
    + simpl in Hw. intuition subst; vm_compute; reflexivity.
    + simpl in Hw. intuition subst; reflexivity.
    + simpl in Hw. intuition subst; reflexivity.
  - rewrite (@str_isalpha_ascii U HU) by reflexivity. reflexivity.
Qed.

(** C9, as amended.  [load_words] has no check on letters.  It succeeds
    exactly when the file has the format of the schema, its three arrays
    are not empty and no sanitized word is repeated, and the lists it
    returns are then the sanitized words of the file, with [all_words]
    the three lists in a row; the words are made of lowercase ASCII
    letters, digits and single spaces.  The file of scenario 5 loads,
    and [abc123] is returned although it is not alphabetic.  The failure
    for a word that is not alphabetic is the one of [process_tweet], on
    any tweet and lists that are not empty. *)
Theorem alphabetic_check_is_downstream (U : unicode) (HU : Lawful U) :
  (forall words r,
     load_words U words = Ok r
     <-> valid WORDS_JSON_SCHEMA words = true
         /\ strings_at POSITIVE words <> []
         /\ strings_at NEGATIVE words <> []
         /\ strings_at NEUTRAL words <> []
         /\ NoDup (map (sanitize_text U) (strings_at POSITIVE words)
                   ++ map (sanitize_text U) (strings_at NEGATIVE words)
                   ++ map (sanitize_text U) (strings_at NEUTRAL words))
         /\ r = (map (sanitize_text U) (strings_at POSITIVE words),
                 map (sanitize_text U) (strings_at NEGATIVE words),
                 map (sanitize_text U) (strings_at NEUTRAL words),
                 map (sanitize_text U) (strings_at POSITIVE words)
                 ++ map (sanitize_text U) (strings_at NEGATIVE words)
                 ++ map (sanitize_text U) (strings_at NEUTRAL words)))
  /\ (forall words P Ng Nu A,
        load_words U words = Ok (P, Ng, Nu, A) ->
        A = P ++ Ng ++ Nu /\ Forall (fun w => canonical w = true) A)
  /\ (load_words U lexicon_abc123
      = Ok ([abc123], [malo], [dia], [abc123; malo; dia])
      /\ str_isalpha U abc123 = false)
  /\ (forall tweet P Ng Nu A,
        tweet <> [] -> P <> [] -> Ng <> [] -> Nu <> [] -> A <> [] ->
        (exists w, In w (P ++ Ng ++ Nu ++ A) /\ str_isalpha U w = false) ->
        exists e, process_tweet U tweet P Ng Nu A = Err e
                  /\ kind_of e = InvalidWordError).
Proof.
  split; [|split; [|split]].
  - intros words r. split; [apply load_words_ok_inv|].
    intros (Hv & HP & HN & HNu & Hnd & ->). now apply load_words_ok.
  - intros words P Ng Nu A. unfold load_words, raise_if.
    destruct (negb _); [discriminate|].
    do 3 (destruct (is_empty _); [discriminate|]).
    cbv zeta. destruct (negb _); [discriminate|].
    intros [= <- <- <- <-]. split; [reflexivity|].
    rewrite <- !map_app. apply Forall_map, Forall_forall.
    intros w _. apply (@sanitize_text_canonical U HU).
  - destruct (lexicon_abc123_words U HU) as [Hw Ha].
    split; [|exact Ha].
    assert (E1 : strings_at POSITIVE lexicon_abc123 = [abc123])
      by reflexivity.
    assert (E2 : strings_at NEGATIVE lexicon_abc123 = [malo]) by reflexivity.
    assert (E3 : strings_at NEUTRAL lexicon_abc123 = [dia]) by reflexivity.
    rewrite load_words_ok.
    + rewrite E1, E2, E3. cbn [map app].
      rewrite !Hw by (simpl; tauto). reflexivity.
    + reflexivity.
    + rewrite E1. discriminate.
    + rewrite E2. discriminate.
    + rewrite E3. discriminate.
    + rewrite E1, E2, E3. cbn [map app].
      rewrite !Hw by (simpl; tauto).
      repeat constructor; simpl; intuition discriminate.
  - intros tweet P Ng Nu A Ht HP HNg HNu HA (w & Hin & Hw).
    unfold process_tweet, raise_if.
    rewrite (is_empty_false Ht), (is_empty_false HP), (is_empty_false HNg),
      (is_empty_false HNu), (is_empty_false HA).
    destruct (forallb (str_isalpha U) P) eqn:EP;
      [|eexists; split; reflexivity].
    destruct (forallb (str_isalpha U) Ng) eqn:ENg;
      [|eexists; split; reflexivity].
    destruct (forallb (str_isalpha U) Nu) eqn:ENu;
      [|eexists; split; reflexivity].
    destruct (forallb (str_isalpha U) A) eqn:EA;
      [|eexists; split; reflexivity].
    exfalso. rewrite forallb_forall in EP, ENg, ENu, EA.
    rewrite !in_app_iff in Hin.
    destruct Hin as [H | [H | [H | H]]];
      [apply EP in H | apply ENg in H | apply ENu in H | apply EA in H];
      congruence.
Qed.

Lemma alphabetic_check_is_downstream_witness :
  exists e,
    process_tweet ucd_excerpt tweet_1_clean [abc123] [malo] [dia]
      [abc123; malo; dia] = Err e
    /\ kind_of e = InvalidWordError.
Proof.
  apply (proj2 (proj2 (proj2 (alphabetic_check_is_downstream ucd_excerpt
                                ucd_excerpt_lawful))));
    try discriminate.
  exists abc123. split; [left; reflexivity | reflexivity].
Defined.

(** The claim C9 as first stated fails on scenario 5: the loader returns
    the word [abc123], which is not alphabetic. *)
Lemma load_words_abc123 :
  load_words ucd_excerpt lexicon_abc123
  = Ok ([abc123], [malo], [dia], [abc123; malo; dia])
  /\ str_isalpha ucd_excerpt abc123 = false
  /\ ~ (exists e, load_words ucd_excerpt lexicon_abc123 = Err e).
Proof.
  split; [reflexivity|]. split; [reflexivity|].
  intros [e He]. vm_compute in He. discriminate He.
Qed.

(* ------------------------------------------------------------------ *)
(** ** More on the sanitizer *)

(** X1.  The texts that the sanitizer leaves as they are are the
    normalized ones: lowercase ASCII letters and digits in words
    separated by single spaces. *)
Theorem sanitize_text_fixed_point_iff (U : unicode) (HU : Lawful U)
    (s : str) :
  sanitize_text U s = s <-> canonical s = true.
Proof.
  split.
  - intros E. rewrite <- E. apply (@sanitize_text_canonical U HU).
  - intros H.
    rewrite (@sanitize_text_ascii U HU)
      by auto using canonical_ascii, canonical_no_amp.
    now apply sanitize_plain_canonical.
Qed.

Lemma sanitize_text_fixed_point_iff_witness :
  sanitize_text ucd_excerpt tweet_1_clean = tweet_1_clean
  <-> canonical tweet_1_clean = true.
Proof.
  exact (sanitize_text_fixed_point_iff ucd_excerpt ucd_excerpt_lawful
           tweet_1_clean).
Defined.

Lemma clean_space c :
  clean_char c = true -> py_isspace c = is_space c.
Proof.
  intros H. unfold clean_char, slug_char, is_space, py_isspace in *.
  destruct (c =? SPACE)%N eqn:E.
  - apply N.eqb_eq in E. now subst c.
  - rewrite orb_false_r in H. apply not_true_is_false. intros Hs.
    apply N.eqb_neq in E. nlia.
Qed.

(** Splitting a text of words separated by single spaces and joining
    the tokens with a space gives the text back; [cur] is the word being
    read. *)
Lemma join_split_from s : forall cur,
  forallb clean_char s = true ->
  no_double is_space s = true ->
  last_in is_space s = false ->
  (cur = [] -> hd_in is_space s = false) ->
  join [SPACE] (split_from cur s) = rev cur ++ s.
Proof.
  induction s as [|c s IH]; intros cur Hc Hd Hl Hh.
  - rewrite app_nil_r. now destruct cur.
  - simpl in Hc. apply andb_true_iff in Hc as [Hc Hs].
    simpl in Hd. apply andb_true_iff in Hd as [Hd Hds].
    assert (Hl' : s <> [] -> last_in is_space s = false)
      by (destruct s; [congruence | intros _; exact Hl]).
    cbn [split_from]. rewrite (clean_space c Hc).
    destruct (is_space c) eqn:Ec.
    + destruct cur as [|x cur];
        [specialize (Hh eq_refl); simpl in Hh; congruence|].
      assert (Hne : s <> []).
      { intros ->. simpl in Hl. congruence. }
      simpl in Hd. apply negb_true_iff in Hd.
      pose proof (IH [] Hs Hds (Hl' Hne) (fun _ => Hd)) as E.
      simpl in E.
      destruct (split_from [] s) as [|w ws] eqn:Es;
        [simpl in E; congruence|].
      change (join [SPACE] (rev (x :: cur) :: w :: ws))
        with (rev (x :: cur) ++ [SPACE] ++ join [SPACE] (w :: ws)).
      rewrite E. unfold is_space in Ec. apply N.eqb_eq in Ec.
      now subst c.
    + assert (Hls : last_in is_space s = false)
        by (destruct s; [reflexivity | now apply Hl']).
      rewrite (IH (c :: cur) Hs Hds Hls) by discriminate.
      simpl. now rewrite <- app_assoc.
Qed.

Lemma split_from_words s : forall cur,
  forallb slug_char cur = true ->
  forallb clean_char s = true ->
  Forall (fun w => w <> [] /\ forallb slug_char w = true)
         (split_from cur s).
Proof.
  induction s as [|c s IH]; intros cur Hcur Hc.
  - simpl. destruct cur as [|x cur]; constructor; [|constructor].
    split.
    + intros E. apply (f_equal (@length N)) in E.
      rewrite length_rev in E. discriminate E.
    + rewrite forallb_forall in *. intros y Hy. apply Hcur.
      now apply in_rev.
  - simpl in Hc. apply andb_true_iff in Hc as [Hc Hs].
    cbn [split_from]. rewrite (clean_space c Hc).
    destruct (is_space c) eqn:Ec.
    + destruct cur as [|x cur]; [now apply IH|].
      constructor; [|now apply IH]. split.
      * intros E. apply (f_equal (@length N)) in E.
        rewrite length_rev in E. discriminate E.
      * rewrite forallb_forall in *. intros y Hy. apply Hcur.
        now apply in_rev.
    + apply IH; [|assumption]. simpl. rewrite Hcur, andb_true_r.
      unfold clean_char in Hc. now rewrite Ec, orb_false_r in Hc.
Qed.

(** X2.  The tokens of a sanitized text are non-empty words of lowercase
    ASCII letters and digits, and joined by single spaces they give the
    sanitized text back. *)
Theorem sanitize_text_split_join (U : unicode) (HU : Lawful U) (s : str) :
  Forall (fun w => w <> [] /\ forallb slug_char w = true)
         (split (sanitize_text U s))
  /\ join [SPACE] (split (sanitize_text U s)) = sanitize_text U s.
Proof.
  pose proof (@sanitize_text_canonical U HU s) as H.
  apply separated_iff in H as (Hall & Hhd & Hlast & Hdbl).
  split.
  - now apply split_from_words.
  - unfold split. now rewrite join_split_from.
Qed.

Lemma sanitize_text_split_join_witness :
  Forall (fun w => w <> [] /\ forallb slug_char w = true)
         (split (sanitize_text ucd_excerpt tweet_1))
  /\ join [SPACE] (split (sanitize_text ucd_excerpt tweet_1))
     = sanitize_text ucd_excerpt tweet_1.
Proof.
  exact (sanitize_text_split_join ucd_excerpt ucd_excerpt_lawful tweet_1).
Defined.

Lemma lstrip_map (f : N -> N) p s :
  (forall c, p (f c) = p c) -> lstrip p (map f s) = map f (lstrip p s).
Proof.
  intros Hf. induction s as [|c s IH]; [reflexivity|].
  simpl. rewrite Hf. now destruct (p c).
Qed.

Lemma rstrip_map (f : N -> N) p s :
  (forall c, p (f c) = p c) -> rstrip p (map f s) = map f (rstrip p s).
Proof.
  intros Hf. induction s as [|c s IH]; [reflexivity|].
  simpl. rewrite IH, Hf.
  destruct (rstrip p s); simpl; [now destruct (p c) | reflexivity].
Qed.

Lemma py_isspace_tolower c : py_isspace (ascii_tolower c) = py_isspace c.
Proof.
  unfold ascii_tolower. destruct (ascii_upper c) eqn:E; [|reflexivity].
  transitivity false; [|symmetry];
    apply not_true_is_false; intros H; unfold py_isspace in H; nlia.
Qed.

Lemma map_tolower_idem s :
  map ascii_tolower (map ascii_tolower s) = map ascii_tolower s.
Proof.
  rewrite map_map. apply map_ext. intros c.
  apply ascii_tolower_fixes, ascii_tolower_not_upper.
Qed.

(** X3.  Two ASCII texts that differ only in the case of their letters
    have the same sanitized text. *)
Theorem sanitize_text_ascii_case (U : unicode) (HU : Lawful U)
    (s1 s2 : str) :
  forallb is_ascii s1 = true -> forallb is_ascii s2 = true ->
  map ascii_tolower s1 = map ascii_tolower s2 ->
  sanitize_text U s1 = sanitize_text U s2.
Proof.
  intros H1 H2 E. unfold sanitize_text. cbv zeta.
  rewrite (lower_ascii (strip py_isspace s1))
    by now apply strip_forallb.
  rewrite (lower_ascii (strip py_isspace s2))
    by now apply strip_forallb.
  unfold strip.
  rewrite <- !(rstrip_map ascii_tolower py_isspace)
    by apply py_isspace_tolower.
  rewrite <- !(lstrip_map ascii_tolower py_isspace)
    by apply py_isspace_tolower.
  now rewrite E.
Qed.

Lemma sanitize_text_ascii_case_witness :
  sanitize_text ucd_excerpt (codes "Hoy ES un BUEN Dia")
  = sanitize_text ucd_excerpt (codes "hoy es un buen dia").
Proof.
  apply (sanitize_text_ascii_case ucd_excerpt ucd_excerpt_lawful
           (codes "Hoy ES un BUEN Dia") (codes "hoy es un buen dia"));
    reflexivity.
Defined.

(* ------------------------------------------------------------------ *)
(** ** More on the vectorizer and the classifier *)

Lemma split_from_blank s :
  forallb py_isspace s = true -> split_from [] s = [].
Proof.
  induction s as [|c s IH]; [reflexivity|]. simpl.
  intros [-> Hs]%andb_true_iff. now apply IH.
Qed.

(** A whitespace character ends the token being read: the tokens of the
    text are those before it and those after it. *)
Lemma split_from_app a c b : forall cur,
  py_isspace c = true ->
  split_from cur (a ++ c :: b) = split_from cur a ++ split_from [] b.
Proof.
  induction a as [|x a IH]; intros cur Hc.
  - simpl. rewrite Hc. now destruct cur.
  - simpl. destruct (py_isspace x).
    + destruct cur; [now apply IH|]. simpl. f_equal. now apply IH.
    + now apply IH.
Qed.

Lemma occurrences_app l1 l2 w :
  occurrences (l1 ++ l2) w = (occurrences l1 w + occurrences l2 w)%nat.
Proof. apply count_occ_app. Qed.

Lemma matches_app l1 l2 tok :
  matches (l1 ++ l2) tok = (matches l1 tok + matches l2 tok)%nat.
Proof. apply count_occ_app. Qed.

Lemma total_matches_app_words l1 l2 toks :
  total_matches (l1 ++ l2) toks
  = (total_matches l1 toks + total_matches l2 toks)%Z.
Proof.
  unfold total_matches. rewrite <- vsum_map_add. f_equal.
  apply map_ext. intros tok. rewrite matches_app. lia.
Qed.

Lemma total_matches_nonneg ws toks : (0 <= total_matches ws toks)%Z.
Proof.
  unfold total_matches. apply vsum_nonneg, Forall_map, Forall_forall.
  intros tok _. lia.
Qed.

Lemma total_matches_none ws toks :
  (forall tok, In tok toks -> ~ In tok ws) -> total_matches ws toks = 0%Z.
Proof.
  intros H. induction toks as [|tok toks IH]; [reflexivity|].
  rewrite total_matches_cons, IH by (intros t Ht; apply H; now right).
  unfold matches.
  rewrite (proj1 (count_occ_not_In _ ws tok)); [reflexivity|].
  apply H. now left.
Qed.

Lemma valid_words_app U l1 l2 :
  valid_words U l1 -> valid_words U l2 -> valid_words U (l1 ++ l2).
Proof.
  intros [H1 A1] [H2 A2]. split.
  - destruct l1; [congruence | discriminate].
  - now rewrite forallb_app, A1, A2.
Qed.

Lemma valid_words_iff U ws :
  valid_words U ws
  <-> is_empty ws = false /\ forallb (str_isalpha U) ws = true.
Proof.
  unfold valid_words. destruct ws; simpl; intuition congruence.
Qed.

(** X4.  The vectorizer, case by case: it fails for an empty list of
    words, then for a list that holds a word that is not alphabetic;
    otherwise the vector it returns has one entry per word, in the order
    of the words, and the entry of a word is the number of tokens of the
    text equal to it. *)
Theorem get_count_vector_cases (U : unicode) (text : str)
    (words : list str) :
  match get_count_vector U text words with
  | Ok cv =>
      valid_words U words
      /\ length cv = length words
      /\ forall i, (i < length words)%nat ->
           nth i cv 0%Z
           = Z.of_nat (occurrences (split text) (nth i words []))
  | Err e =>
      (words = [] /\ e = EmptyCollection Words)
      \/ (words <> [] /\ forallb (str_isalpha U) words = false
          /\ e = NotWords Words)
  end.
Proof.
  destruct words as [|w ws] eqn:Ew; [left; now split|]. rewrite <- Ew.
  assert (Hne : words <> []) by (subst; discriminate).
  destruct (forallb (str_isalpha U) words) eqn:Ea.
  - rewrite get_count_vector_valid by now split.
    split; [now split|]. split; [apply length_map|].
    intros i Hi.
    rewrite (nth_indep _ 0%Z (Z.of_nat (occurrences (split text) [])))
      by now rewrite length_map.
    exact (map_nth (fun w => Z.of_nat (occurrences (split text) w))
             words [] i).
  - unfold get_count_vector, raise_if.
    rewrite (is_empty_false Hne), Ea. right. now repeat split.
Qed.

Lemma occurrences_nil w : occurrences [] w = 0%nat.
Proof. reflexivity. Qed.

(** X5.  On a text without tokens, the empty text or whitespace alone,
    the count vector of a valid list of words is all zeros. *)
Theorem get_count_vector_blank (U : unicode) (text : str)
    (words : list str) :
  valid_words U words ->
  forallb py_isspace text = true ->
  get_count_vector U text words = Ok (zeros (length words)).
Proof.
  intros Hw Hb. rewrite get_count_vector_valid by assumption.
  unfold split. rewrite split_from_blank by assumption.
  now rewrite zeros_map.
Qed.

Lemma get_count_vector_blank_witness :
  get_count_vector ucd_excerpt (codes "   ") [bueno; malo; dia]
  = Ok (zeros (length [bueno; malo; dia])).
Proof.
  apply (get_count_vector_blank ucd_excerpt (codes "   ")
           [bueno; malo; dia]);
    [split; [discriminate | reflexivity] | reflexivity].
Defined.

Lemma vadd_map {A} (f g : A -> Z) (l : list A) :
  vadd (map f l) (map g l) = map (fun x => (f x + g x)%Z) l.
Proof.
  unfold vadd. induction l as [|x l IH]; [reflexivity|].
  simpl. now rewrite IH.
Qed.

(** X6.  The count vector of two texts put together with a whitespace
    character between them is the sum, entry by entry, of their count
    vectors. *)
Theorem get_count_vector_concat (U : unicode) (t1 t2 : str) (c : N)
    (words : list str) :
  valid_words U words ->
  py_isspace c = true ->
  exists cv1 cv2,
    get_count_vector U t1 words = Ok cv1
    /\ get_count_vector U t2 words = Ok cv2
    /\ get_count_vector U (t1 ++ c :: t2) words = Ok (vadd cv1 cv2).
Proof.
  intros Hw Hc. do 2 eexists.
  split; [now apply get_count_vector_valid|].
  split; [now apply get_count_vector_valid|].
  rewrite get_count_vector_valid by assumption. f_equal.
  rewrite vadd_map. apply map_ext. intros w.
  unfold split. rewrite split_from_app by assumption.
  rewrite occurrences_app. lia.
Qed.

Lemma get_count_vector_concat_witness :
  exists cv1 cv2,
    get_count_vector ucd_excerpt (codes "malo dia") [bueno; malo; dia]
    = Ok cv1
    /\ get_count_vector ucd_excerpt (codes "malo") [bueno; malo; dia]
       = Ok cv2
    /\ get_count_vector ucd_excerpt (codes "malo dia" ++ SPACE :: codes "malo")
         [bueno; malo; dia]
       = Ok (vadd cv1 cv2).
Proof.
  apply (get_count_vector_concat ucd_excerpt (codes "malo dia")
           (codes "malo") SPACE [bueno; malo; dia]);
    [split; [discriminate | reflexivity] | reflexivity].
Defined.

(** X7.  The three slots of the classification vector add up to the
    sum of the count vector over the three lists in a row; when no word
    is in two of the lists or twice in one, this is at most the number
    of tokens: a token counts for one category at most. *)
Theorem classification_total (U : unicode) (P Nu Ng : list str)
    (text : str) :
  valid_words U P -> valid_words U Nu -> valid_words U Ng ->
  exists clv cv,
    get_classification_vector U P Nu Ng text = Ok clv
    /\ get_count_vector U text (P ++ Ng ++ Nu) = Ok cv
    /\ vsum clv = vsum cv
    /\ (NoDup (P ++ Ng ++ Nu) ->
        (vsum clv <= Z.of_nat (length (split text)))%Z).
Proof.
  intros HP HNu HNg. do 2 eexists.
  split; [now apply get_classification_vector_valid|].
  split; [apply get_count_vector_valid; now repeat apply valid_words_app|].
  rewrite vsum_occurrences, !total_matches_app_words.
  split; [unfold vsum; simpl; lia|].
  intros Hnd.
  assert (Hone : forall tok, (matches (P ++ Ng ++ Nu) tok <= 1)%nat)
    by (intros tok; unfold matches; now apply NoDup_count_occ).
  pose proof (proj1 (total_matches_bound (P ++ Ng ++ Nu) (split text) Hone))
    as Hb.
  rewrite !total_matches_app_words in Hb. unfold vsum. simpl. lia.
Qed.

Lemma classification_total_witness :
  exists clv cv,
    get_classification_vector ucd_excerpt [bueno] [dia] [malo] tweet_1_clean
    = Ok clv
    /\ get_count_vector ucd_excerpt tweet_1_clean ([bueno] ++ [malo] ++ [dia])
       = Ok cv
    /\ vsum clv = vsum cv
    /\ (NoDup ([bueno] ++ [malo] ++ [dia]) ->
        (vsum clv <= Z.of_nat (length (split tweet_1_clean)))%Z).
Proof.
  apply (classification_total ucd_excerpt [bueno] [dia] [malo]
           tweet_1_clean);
    (split; [discriminate | reflexivity]).
Defined.

(* ------------------------------------------------------------------ *)
(** ** More on the scorer *)

Lemma process_tweet_ok_valid U tweet P Ng Nu A r :
  process_tweet U tweet P Ng Nu A = Ok r ->
  tweet <> [] /\ valid_words U P /\ valid_words U Ng
  /\ valid_words U Nu /\ valid_words U A.
Proof.
  unfold process_tweet, raise_if. rewrite !valid_words_iff.
  destruct tweet; [discriminate|].
  destruct (is_empty P); [discriminate|].
  destruct (is_empty Ng); [discriminate|].
  destruct (is_empty Nu); [discriminate|].
  destruct (is_empty A); [discriminate|]. simpl is_empty. cbv iota.
  destruct (forallb (str_isalpha U) P); [|discriminate].
  destruct (forallb (str_isalpha U) Ng); [|discriminate].
  destruct (forallb (str_isalpha U) Nu); [|discriminate].
  destruct (forallb (str_isalpha U) A); [|discriminate].
  intros _. repeat split; discriminate.
Qed.

(** X8.  The scorer succeeds on the valid inputs and on no other: a
    tweet that is not empty and four lists that are not empty and hold
    alphabetic words only.  An empty tweet is reported first, whatever
    the lists are, and an empty list before any word that is not
    alphabetic. *)
Theorem process_tweet_validation (U : unicode) (tweet : str)
    (P Ng Nu A : list str) :
  ((exists r, process_tweet U tweet P Ng Nu A = Ok r)
   <-> tweet <> [] /\ valid_words U P /\ valid_words U Ng
       /\ valid_words U Nu /\ valid_words U A)
  /\ (tweet = [] -> process_tweet U tweet P Ng Nu A = Err EmptyTweet)
  /\ (tweet <> [] -> P = [] \/ Ng = [] \/ Nu = [] \/ A = [] ->
      exists c, process_tweet U tweet P Ng Nu A = Err (EmptyCollection c)).
Proof.
  split; [split|split].
  - intros [r Hr]. now apply process_tweet_ok_valid in Hr.
  - intros (Ht & HP & HNg & HNu & HA). eexists.
    now apply process_tweet_valid.
  - now intros ->.
  - intros Ht H. unfold process_tweet, raise_if.
    rewrite (is_empty_false Ht).
    destruct P; [now eexists|]. destruct Ng; [now eexists|].
    destruct Nu; [now eexists|]. destruct A; [now eexists|].
    exfalso. intuition discriminate.
Qed.

Lemma occurrences_none toks ws :
  (forall tok, In tok toks -> ~ In tok ws) ->
  Forall (fun c => c = 0%Z) (map (fun w => Z.of_nat (occurrences toks w)) ws).
Proof.
  intros H. apply Forall_map, Forall_forall. intros w Hw.
  unfold occurrences.
  rewrite (proj1 (count_occ_not_In _ toks w)); [reflexivity|].
  intros Hin. exact (H w Hin Hw).
Qed.

(** X9.  On valid input, when no token of the tweet is a positive or a
    negative word the score is 0, and when no token is in [all_words]
    the quality index is 0: its expression is 0 in exact arithmetic, and
    the binary64 value returned is [+0] (for a lexicon of at most
    [MAX_WORDS] words). *)
Theorem process_tweet_no_match (U : unicode) (tweet : str)
    (P Ng Nu A : list str) :
  tweet <> [] ->
  valid_words U P -> valid_words U Ng -> valid_words U Nu ->
  valid_words U A ->
  exists score cv,
    get_count_vector U tweet A = Ok cv
    /\ process_tweet U tweet P Ng Nu A = Ok (score, quality_index A cv)
    /\ ((forall tok, In tok (split tweet) -> ~ In tok P /\ ~ In tok Ng) ->
        score = 0%Z)
    /\ ((forall tok, In tok (split tweet) -> ~ In tok A) ->
        (quality_index_exact A cv == 0)%Q
        /\ ((Z.of_nat (length A) <= MAX_WORDS)%Z ->
            quality_index A cv = 0%float)).
Proof.
  intros Ht HP HNg HNu HA. do 2 eexists.
  split; [now apply get_count_vector_valid|].
  split; [now apply process_tweet_valid|]. split.
  - intros H. rewrite !total_matches_none; [reflexivity | |];
      intros tok Htok; now apply H.
  - intros H. split.
    + rewrite quality_index_exact_ratio, vsum_occurrences,
        total_matches_none by assumption.
      unfold Qdiv. now rewrite Qmult_0_l.
    + intros Hmax. apply quality_index_zeros.
      * split; [now apply (valid_words_length U) | assumption].
      * now apply occurrences_none.
Qed.

Lemma process_tweet_no_match_witness :
  exists score cv,
    get_count_vector ucd_excerpt (codes "hoy es lunes") [bueno; malo; dia]
    = Ok cv
    /\ process_tweet ucd_excerpt (codes "hoy es lunes") [bueno] [malo] [dia]
         [bueno; malo; dia]
       = Ok (score, quality_index [bueno; malo; dia] cv)
    /\ ((forall tok, In tok (split (codes "hoy es lunes")) ->
           ~ In tok [bueno] /\ ~ In tok [malo]) -> score = 0%Z)
    /\ ((forall tok, In tok (split (codes "hoy es lunes")) ->
           ~ In tok [bueno; malo; dia]) ->
        (quality_index_exact [bueno; malo; dia] cv == 0)%Q
        /\ ((Z.of_nat (length [bueno; malo; dia]) <= MAX_WORDS)%Z ->
            quality_index [bueno; malo; dia] cv = 0%float)).
Proof.
  apply (process_tweet_no_match ucd_excerpt (codes "hoy es lunes")
           [bueno] [malo] [dia] [bueno; malo; dia]);
    [discriminate | | | | ]; (split; [discriminate | reflexivity]).
Defined.

Lemma total_matches_le ws toks :
  NoDup ws -> (total_matches ws toks <= Z.of_nat (length toks))%Z.
Proof.
  intros Hnd. apply total_matches_bound.
  intros tok. unfold matches. now apply NoDup_count_occ.
Qed.

(** X10.  On valid input with no word twice among the positive words
    and none twice among the negative ones, the score lies between minus
    the number of tokens and the number of tokens. *)
Theorem process_tweet_bounds (U : unicode) (tweet : str)
    (P Ng Nu A : list str) :
  tweet <> [] ->
  valid_words U P -> valid_words U Ng -> valid_words U Nu ->
  valid_words U A ->
  NoDup P -> NoDup Ng ->
  exists score q,
    process_tweet U tweet P Ng Nu A = Ok (score, q)
    /\ (- Z.of_nat (length (split tweet)) <= score
        <= Z.of_nat (length (split tweet)))%Z.
Proof.
  intros Ht HP HNg HNu HA HdP HdNg. do 2 eexists.
  split; [now apply process_tweet_valid|].
  pose proof (total_matches_le P (split tweet) HdP).
  pose proof (total_matches_le Ng (split tweet) HdNg).
  pose proof (total_matches_nonneg P (split tweet)).
  pose proof (total_matches_nonneg Ng (split tweet)). lia.
Qed.

Lemma process_tweet_bounds_witness :
  exists score q,
    process_tweet ucd_excerpt tweet_1_clean [bueno] [malo] [dia]
      [bueno; malo; dia] = Ok (score, q)
    /\ (- Z.of_nat (length (split tweet_1_clean)) <= score
        <= Z.of_nat (length (split tweet_1_clean)))%Z.
Proof.
  apply (process_tweet_bounds ucd_excerpt tweet_1_clean
           [bueno] [malo] [dia] [bueno; malo; dia]);
    [discriminate | | | | | | ];
    try (split; [discriminate | reflexivity]);
    repeat constructor; simpl; intuition discriminate.
Defined.

(* ------------------------------------------------------------------ *)
(** ** More on the loader *)

(** X11.  The loader succeeds exactly when the payload has the format of
    the schema, its three arrays are not empty and no sanitized word is
    repeated; it then returns the sanitized words of the three arrays,
    and the three lists in a row as [all_words]. *)
Theorem load_words_ok_iff (U : unicode) (words : json)
    (r : list str * list str * list str * list str) :
  load_words U words = Ok r
  <-> valid WORDS_JSON_SCHEMA words = true
      /\ strings_at POSITIVE words <> []
      /\ strings_at NEGATIVE words <> []
      /\ strings_at NEUTRAL words <> []
      /\ NoDup (map (sanitize_text U) (strings_at POSITIVE words)
                ++ map (sanitize_text U) (strings_at NEGATIVE words)
                ++ map (sanitize_text U) (strings_at NEUTRAL words))
      /\ r = (map (sanitize_text U) (strings_at POSITIVE words),
              map (sanitize_text U) (strings_at NEGATIVE words),
              map (sanitize_text U) (strings_at NEUTRAL words),
              map (sanitize_text U) (strings_at POSITIVE words)
              ++ map (sanitize_text U) (strings_at NEGATIVE words)
              ++ map (sanitize_text U) (strings_at NEUTRAL words)).
Proof.
  split; [apply load_words_ok_inv|].
  intros (Hv & HP & HN & HU & Hnd & ->). now apply load_words_ok.
Qed.

Lemma NoDup_app_disjoint {A} (l1 l2 : list A) x :
  NoDup (l1 ++ l2) -> In x l1 -> ~ In x l2.
Proof.
  induction l1 as [|a l1 IH]; [contradiction|].
  simpl. intros Hnd [->|Hin] H2.
  - inversion Hnd as [|? ? Hni _]; subst. apply Hni, in_or_app. now right.
  - inversion Hnd; subst. now apply IH.
Qed.

Lemma NoDup_app_l {A} (l1 l2 : list A) : NoDup (l1 ++ l2) -> NoDup l1.
Proof.
  induction l1 as [|a l1 IH]; [constructor|].
  simpl. intros Hnd. inversion Hnd as [|? ? Hni Hr]; subst.
  constructor; [|now apply IH]. intros Hin. apply Hni, in_or_app. now left.
Qed.

Lemma NoDup_app_r {A} (l1 l2 : list A) : NoDup (l1 ++ l2) -> NoDup l2.
Proof.
  induction l1 as [|a l1 IH]; [trivial|].
  simpl. intros Hnd. inversion Hnd; subst. now apply IH.
Qed.

(** X12.  The lists a successful load returns: none is empty, each has
    as many words as its array in the payload, no word is twice in one
    of them or in two of them, and [all_words] is the positive, the
    negative and the neutral words in this order. *)
Theorem load_words_lexicon (U : unicode) (words : json)
    (P Ng Nu A : list str) :
  load_words U words = Ok (P, Ng, Nu, A) ->
  P <> [] /\ Ng <> [] /\ Nu <> []
  /\ length P = length (strings_at POSITIVE words)
  /\ length Ng = length (strings_at NEGATIVE words)
  /\ length Nu = length (strings_at NEUTRAL words)
  /\ A = P ++ Ng ++ Nu
  /\ NoDup P /\ NoDup Ng /\ NoDup Nu
  /\ (forall w, In w P -> ~ In w Ng /\ ~ In w Nu)
  /\ (forall w, In w Ng -> ~ In w Nu).
Proof.
  intros H. apply load_words_ok_inv in H
    as (_ & HP & HN & HU & Hnd & [= -> -> -> ->]).
  repeat split; try (now rewrite length_map).
  - destruct (strings_at POSITIVE words); [congruence | discriminate].
  - destruct (strings_at NEGATIVE words); [congruence | discriminate].
  - destruct (strings_at NEUTRAL words); [congruence | discriminate].
  - now apply NoDup_app_l in Hnd.
  - now apply NoDup_app_r, NoDup_app_l in Hnd.
  - now apply NoDup_app_r, NoDup_app_r in Hnd.
  - intros Hin. eapply NoDup_app_disjoint; [exact Hnd | eassumption|].
    apply in_or_app. now left.
  - intros Hin. eapply NoDup_app_disjoint; [exact Hnd | eassumption|].
    apply in_or_app. now right.
  - intros w Hw. apply NoDup_app_r in Hnd.
    now apply (NoDup_app_disjoint _ _ w Hnd).
Qed.

Lemma load_words_lexicon_witness :
  [bueno] <> [] /\ [malo] <> [] /\ [dia] <> []
  /\ length [bueno] = length (strings_at POSITIVE lexicon_1)
  /\ length [malo] = length (strings_at NEGATIVE lexicon_1)
  /\ length [dia] = length (strings_at NEUTRAL lexicon_1)
  /\ [bueno; malo; dia] = [bueno] ++ [malo] ++ [dia]
  /\ NoDup [bueno] /\ NoDup [malo] /\ NoDup [dia]
  /\ (forall w, In w [bueno] -> ~ In w [malo] /\ ~ In w [dia])
  /\ (forall w, In w [malo] -> ~ In w [dia]).
Proof.
  apply (load_words_lexicon ucd_excerpt lexicon_1
           [bueno] [malo] [dia] [bueno; malo; dia]).
  reflexivity.
Defined.

Lemma strings_of_words_file p n u :
  strings_at POSITIVE (words_file p n u) = p
  /\ strings_at NEGATIVE (words_file p n u) = n
  /\ strings_at NEUTRAL (words_file p n u) = u.
Proof.
  assert (H : forall l,
            map (fun x => match x with JString s => s | _ => [] end)
                (map JString l) = l).
  { intros l. rewrite map_map. apply map_id. }
  repeat split.
  - change (strings_at POSITIVE (words_file p n u))
      with (map (fun x => match x with JString s => s | _ => [] end)
                (map JString p)). apply H.
  - change (strings_at NEGATIVE (words_file p n u))
      with (map (fun x => match x with JString s => s | _ => [] end)
                (map JString n)). apply H.
  - change (strings_at NEUTRAL (words_file p n u))
      with (map (fun x => match x with JString s => s | _ => [] end)
                (map JString u)). apply H.
Qed.

Lemma valid_words_file p n u :
  valid WORDS_JSON_SCHEMA (words_file p n u) = true.
Proof.
  assert (H : forall l, is_array_of_strings (JArray (map JString l)) = true).
  { intros l. simpl. induction l as [|x l IH]; [reflexivity | exact IH]. }
  unfold words_file. rewrite valid_words_schema.
  unfold CATEGORY_KEYS. cbn [forallb].
  change (dict_get POSITIVE _) with (Some (JArray (map JString p))).
  change (dict_get NEGATIVE _) with (Some (JArray (map JString n))).
  change (dict_get NEUTRAL _) with (Some (JArray (map JString u))).
  cbv beta iota. rewrite !H. reflexivity.
Qed.

(** X13.  On a file of the right format the loader checks, in this
    order, that there are positive, negative and neutral words and that
    no sanitized word is repeated; the first check that fails gives the
    error, and when none fails the sanitized lists are returned. *)
Theorem load_words_words_file (U : unicode) (p n u : list str) :
  (p = [] ->
   load_words U (words_file p n u) = Err (NoWordsInFile Positive))
  /\ (p <> [] -> n = [] ->
      load_words U (words_file p n u) = Err (NoWordsInFile Negative))
  /\ (p <> [] -> n <> [] -> u = [] ->
      load_words U (words_file p n u) = Err (NoWordsInFile Neutral))
  /\ (p <> [] -> n <> [] -> u <> [] ->
      ~ NoDup (map (sanitize_text U) p ++ map (sanitize_text U) n
               ++ map (sanitize_text U) u) ->
      load_words U (words_file p n u) = Err RepeatedWords)
  /\ (p <> [] -> n <> [] -> u <> [] ->
      NoDup (map (sanitize_text U) p ++ map (sanitize_text U) n
             ++ map (sanitize_text U) u) ->
      load_words U (words_file p n u)
      = Ok (map (sanitize_text U) p, map (sanitize_text U) n,
            map (sanitize_text U) u,
            map (sanitize_text U) p ++ map (sanitize_text U) n
            ++ map (sanitize_text U) u)).
Proof.
  destruct (strings_of_words_file p n u) as (EP & EN & EU).
  pose proof (valid_words_file p n u) as Hv.
  repeat split.
  - intros ->. unfold load_words, raise_if. now rewrite Hv, EP.
  - intros Hp ->. unfold load_words, raise_if.
    now rewrite Hv, EP, EN, (is_empty_false Hp).
  - intros Hp Hn ->. unfold load_words, raise_if.
    now rewrite Hv, EP, EN, EU, (is_empty_false Hp), (is_empty_false Hn).
  - intros Hp Hn Hu Hnd.
    rewrite load_words_unfold by (rewrite ?EP, ?EN, ?EU; assumption).
    cbv zeta. rewrite EP, EN, EU.
    rewrite <- nodup_length_iff in Hnd. apply Nat.eqb_neq in Hnd.
    now rewrite Hnd.
  - intros Hp Hn Hu Hnd.
    rewrite load_words_ok; rewrite ?EP, ?EN, ?EU; auto.
Qed.

Lemma load_words_words_file_witness :
  load_words ucd_excerpt (words_file [codes "a"] [] [codes "b"])
  = Err (NoWordsInFile Negative).
Proof.
  apply (load_words_words_file ucd_excerpt [codes "a"] [] [codes "b"]);
    [discriminate | reflexivity].
Defined.

(* ------------------------------------------------------------------ *)
(** ** Reading the tweets and the loop of [main] *)

Lemma load_tweets_fold U lines : forall acc,
  fold_left (fun tweets line => tweets ++ [sanitize_text U line]) lines acc
  = acc ++ map (sanitize_text U) lines.
Proof.
  induction lines as [|l lines IH]; intros acc; simpl.
  - now rewrite app_nil_r.
  - now rewrite IH, <- app_assoc.
Qed.

Lemma load_tweets_map U lines :
  load_tweets U lines = map (sanitize_text U) lines.
Proof. unfold load_tweets. now rewrite load_tweets_fold. Qed.

(** X14.  [load_tweets] returns one tweet per line, in the order of the
    lines; every tweet is a normalized text, so loading the tweets it
    returned gives them back. *)
Theorem load_tweets_normalized (U : unicode) (HU : Lawful U)
    (lines : list str) :
  length (load_tweets U lines) = length lines
  /\ (forall i, (i < length lines)%nat ->
        nth i (load_tweets U lines) [] = sanitize_text U (nth i lines []))
  /\ Forall (fun tweet => canonical tweet = true) (load_tweets U lines)
  /\ load_tweets U (load_tweets U lines) = load_tweets U lines.
Proof.
  rewrite !load_tweets_map. split; [apply length_map|]. split.
  - intros i Hi.
    rewrite (nth_indep _ [] (sanitize_text U []))
      by now rewrite length_map.
    apply map_nth.
  - split.
    + apply Forall_map, Forall_forall. intros l _.
      apply (@sanitize_text_canonical U HU).
    + rewrite map_map. apply map_ext. intros l.
      pose proof (@sanitize_text_canonical U HU l) as Hc.
      rewrite (@sanitize_text_ascii U HU)
        by auto using canonical_ascii, canonical_no_amp.
      now apply sanitize_plain_canonical.
Qed.

Lemma load_tweets_normalized_witness :
  load_tweets ucd_excerpt (load_tweets ucd_excerpt [tweet_1; cafe_accent])
  = load_tweets ucd_excerpt [tweet_1; cafe_accent].
Proof.
  apply (load_tweets_normalized ucd_excerpt ucd_excerpt_lawful
           [tweet_1; cafe_accent]).
Defined.

Section MainLoop.

Variable U : unicode.
Variables P Ng Nu A : list str.

Hypothesis HP : valid_words U P.
Hypothesis HNg : valid_words U Ng.
Hypothesis HNu : valid_words U Nu.
Hypothesis HA : valid_words U A.

Lemma process_tweets_all tweets : forall results,
  Forall (fun tweet => tweet <> []) tweets ->
  process_tweets U tweets P Ng Nu A results
  = Ok (results ++ map (record_of P Ng A) tweets).
Proof.
  induction tweets as [|t tweets IH]; intros results Hall; simpl.
  - now rewrite app_nil_r.
  - inversion Hall as [|? ? Ht Hr]; subst.
    rewrite (process_tweet_valid U t P Ng Nu A Ht HP HNg HNu HA).
    simpl. rewrite (IH _ Hr), <- app_assoc. reflexivity.
Qed.

Lemma process_tweets_empty_tweet tweets : forall results,
  In [] tweets ->
  process_tweets U tweets P Ng Nu A results = Err EmptyTweet.
Proof.
  induction tweets as [|t tweets IH]; intros results Hin; [contradiction|].
  simpl. destruct t as [|c t].
  - reflexivity.
  - destruct Hin as [E|Hin]; [discriminate|].
    rewrite (process_tweet_valid U (c :: t) P Ng Nu A) by
      (assumption || discriminate).
    simpl. now apply IH.
Qed.

End MainLoop.

Lemma valid_words_lexicon U words P Ng Nu A :
  load_words U words = Ok (P, Ng, Nu, A) ->
  forallb (str_isalpha U) A = true ->
  valid_words U P /\ valid_words U Ng /\ valid_words U Nu
  /\ valid_words U A.
Proof.
  intros H Ha. apply load_words_ok_inv in H
    as (_ & HP & HN & HU & _ & [= -> -> -> ->]).
  rewrite !forallb_app in Ha.
  apply andb_true_iff in Ha as [Ha1 Ha2].
  apply andb_true_iff in Ha2 as [Ha2 Ha3].
  assert (Hne : forall l, l <> [] -> map (sanitize_text U) l <> [])
    by (intros [|x l]; [congruence | discriminate]).
  repeat split; auto.
  - intros E. apply app_eq_nil in E as [E _]. revert E. now apply Hne.
  - now rewrite !forallb_app, Ha1, Ha2, Ha3.
Qed.

(** X15.  With a lexicon that loads and holds alphabetic words only,
    when every line sanitizes to a text that is not empty the results of
    [main] are one record per line, in the order of the lines: the
    sanitized line, its score and its quality index. *)
Theorem main_results_ok (U : unicode) (lines : list str) (words : json)
    (P Ng Nu A : list str) :
  load_words U words = Ok (P, Ng, Nu, A) ->
  forallb (str_isalpha U) A = true ->
  Forall (fun line => sanitize_text U line <> []) lines ->
  main_results U lines words
  = Ok (map (fun line => record_of P Ng A (sanitize_text U line)) lines).
Proof.
  intros Hl Ha Hall.
  destruct (valid_words_lexicon U words P Ng Nu A Hl Ha)
    as (HP & HNg & HNu & HA).
  unfold main_results. cbv zeta. rewrite Hl. simpl.
  rewrite load_tweets_map, process_tweets_all by
    (assumption || now apply Forall_map).
  now rewrite map_map.
Qed.

Lemma main_results_ok_witness :
  main_results ucd_excerpt [tweet_1; codes "Dia malo!"] lexicon_1
  = Ok (map (fun line =>
               record_of [bueno] [malo] [bueno; malo; dia]
                 (sanitize_text ucd_excerpt line))
            [tweet_1; codes "Dia malo!"]).
Proof.
  apply (main_results_ok ucd_excerpt [tweet_1; codes "Dia malo!"] lexicon_1
           [bueno] [malo] [dia] [bueno; malo; dia]);
    [reflexivity | reflexivity |].
  repeat constructor; intros H; vm_compute in H; discriminate H.
Defined.

(** X16.  With a lexicon that loads and holds alphabetic words only, a
    line that sanitizes to the empty text (a blank line, a line of
    punctuation) makes [main] fail for the empty tweet: no results are
    returned, whatever the other lines are. *)
Theorem main_results_empty_tweet (U : unicode) (lines : list str)
    (words : json) (P Ng Nu A : list str) :
  load_words U words = Ok (P, Ng, Nu, A) ->
  forallb (str_isalpha U) A = true ->
  Exists (fun line => sanitize_text U line = []) lines ->
  main_results U lines words = Err EmptyTweet.
Proof.
  intros Hl Ha Hex.
  destruct (valid_words_lexicon U words P Ng Nu A Hl Ha)
    as (HP & HNg & HNu & HA).
  unfold main_results. cbv zeta. rewrite Hl. simpl.
  rewrite load_tweets_map.
  apply process_tweets_empty_tweet; try assumption.
  apply Exists_exists in Hex as (l & Hin & E).
  rewrite <- E. now apply in_map.
Qed.

Lemma main_results_empty_tweet_witness :
  main_results ucd_excerpt [tweet_1; codes "?!"; codes "dia"] lexicon_1
  = Err EmptyTweet.
Proof.
  apply (main_results_empty_tweet ucd_excerpt
           [tweet_1; codes "?!"; codes "dia"] lexicon_1
           [bueno] [malo] [dia] [bueno; malo; dia]);
    [reflexivity | reflexivity |].
  apply Exists_cons_tl, Exists_cons_hd. reflexivity.
Defined.

Lemma process_tweet_not_words U tweet P Ng Nu A :
  tweet <> [] -> P <> [] -> Ng <> [] -> Nu <> [] -> A <> [] ->
  forallb (str_isalpha U) A = false ->
  exists c, process_tweet U tweet P Ng Nu A = Err (NotWords c).
Proof.
  intros Ht HP HNg HNu HA Ha. unfold process_tweet, raise_if.
  rewrite (is_empty_false Ht), (is_empty_false HP), (is_empty_false HNg),
    (is_empty_false HNu), (is_empty_false HA), Ha.
  destruct (forallb (str_isalpha U) P); [|now eexists].
  destruct (forallb (str_isalpha U) Ng); [|now eexists].
  destruct (forallb (str_isalpha U) Nu); now eexists.
Qed.

(** X17.  A lexicon that loads with a word that is not alphabetic (a
    digit in it, two words in one entry, nothing left of it) is refused
    by [main] only when there is a tweet: without lines the results are
    empty, and with lines the first tweet fails, for the empty tweet
    when it is empty and for the word otherwise. *)
Theorem main_results_not_words (U : unicode) (words : json)
    (P Ng Nu A : list str) :
  load_words U words = Ok (P, Ng, Nu, A) ->
  forallb (str_isalpha U) A = false ->
  main_results U [] words = Ok []
  /\ (forall line rest,
        sanitize_text U line = [] ->
        main_results U (line :: rest) words = Err EmptyTweet)
  /\ (forall line rest,
        sanitize_text U line <> [] ->
        exists c, main_results U (line :: rest) words = Err (NotWords c)).
Proof.
  intros Hl Ha.
  pose proof (load_words_ok_inv U words _ Hl)
    as (_ & HP & HN & HU & _ & [= EP EN EU EA]).
  assert (Hne : forall l, l <> [] -> map (sanitize_text U) l <> [])
    by (intros [|x l]; [congruence | discriminate]).
  assert (HP' : P <> []) by (rewrite EP; now apply Hne).
  assert (HN' : Ng <> []) by (rewrite EN; now apply Hne).
  assert (HU' : Nu <> []) by (rewrite EU; now apply Hne).
  assert (HA' : A <> []).
  { rewrite EA. intros E. apply app_eq_nil in E as [E _].
    revert E. now apply Hne. }
  clear EP EN EU EA.
  unfold main_results. cbv zeta. rewrite Hl. simpl bind. cbv iota beta.
  repeat split.
  - intros line rest E. rewrite load_tweets_map. simpl. now rewrite E.
  - intros line rest Hline. rewrite load_tweets_map. simpl.
    destruct (process_tweet_not_words U (sanitize_text U line) P Ng Nu A)
      as [c Hc]; auto.
    exists c. now rewrite Hc.
Qed.

Lemma main_results_not_words_witness :
  main_results ucd_excerpt [] lexicon_abc123 = Ok []
  /\ exists c,
       main_results ucd_excerpt [tweet_1] lexicon_abc123 = Err (NotWords c).
Proof.
  pose proof (main_results_not_words ucd_excerpt lexicon_abc123
                [abc123] [malo] [dia] [abc123; malo; dia]
                eq_refl eq_refl) as (H0 & _ & H2).
  split; [exact H0|]. apply H2.
  intros H. vm_compute in H. discriminate H.
Defined.

(* ------------------------------------------------------------------ *)
(** ** The classifier case by case; the lists of the scorer *)

Lemma get_classification_vector_ok_valid U P Nu Ng text clv :
  get_classification_vector U P Nu Ng text = Ok clv ->
  valid_words U P /\ valid_words U Nu /\ valid_words U Ng.
Proof.
  unfold get_classification_vector, raise_if. rewrite !valid_words_iff.
  destruct (is_empty P); [discriminate|].
  destruct (is_empty Ng); [discriminate|].
  destruct (is_empty Nu); [discriminate|].
  destruct (forallb (str_isalpha U) P); [|discriminate].
  destruct (forallb (str_isalpha U) Ng); [|discriminate].
  destruct (forallb (str_isalpha U) Nu); [|discriminate].
  intros _. now repeat split.
Qed.

(** X18.  The classifier succeeds exactly on three valid lists.  Its
    vector then has three slots, for the positive, the neutral and the
    negative words in this order; a slot holds, over all the tokens of
    the text, the number of words of its list equal to the token, and is
    not negative. *)
Theorem get_classification_vector_cases (U : unicode)
    (P Nu Ng : list str) (text : str) :
  ((exists clv, get_classification_vector U P Nu Ng text = Ok clv)
   <-> valid_words U P /\ valid_words U Nu /\ valid_words U Ng)
  /\ (forall clv,
        get_classification_vector U P Nu Ng text = Ok clv ->
        clv = [ total_matches P (split text);
                total_matches Nu (split text);
                total_matches Ng (split text) ]
        /\ Forall (fun x => (0 <= x)%Z) clv).
Proof.
  split; [split|].
  - intros [clv H]. now apply get_classification_vector_ok_valid in H.
  - intros (HP & HNu & HNg). eexists.
    now apply get_classification_vector_valid.
  - intros clv H.
    pose proof (get_classification_vector_ok_valid U P Nu Ng text clv H)
      as (HP & HNu & HNg).
    rewrite get_classification_vector_valid in H by assumption.
    injection H as <-. split; [reflexivity|].
    repeat constructor; apply total_matches_nonneg.
Qed.

(** X19.  On valid input, the positive and the negative words changed
    for each other give the opposite score and the same quality index. *)
Theorem process_tweet_swap (U : unicode) (tweet : str)
    (P Ng Nu A : list str) :
  tweet <> [] ->
  valid_words U P -> valid_words U Ng -> valid_words U Nu ->
  valid_words U A ->
  exists score q,
    process_tweet U tweet P Ng Nu A = Ok (score, q)
    /\ process_tweet U tweet Ng P Nu A = Ok ((- score)%Z, q).
Proof.
  intros Ht HP HNg HNu HA. do 2 eexists.
  split; [now apply process_tweet_valid|].
  rewrite process_tweet_valid by assumption. do 2 f_equal. lia.
Qed.

Lemma process_tweet_swap_witness :
  exists score q,
    process_tweet ucd_excerpt tweet_1_clean [bueno] [malo] [dia]
      [bueno; malo; dia] = Ok (score, q)
    /\ process_tweet ucd_excerpt tweet_1_clean [malo] [bueno] [dia]
         [bueno; malo; dia] = Ok ((- score)%Z, q).
Proof.
  apply (process_tweet_swap ucd_excerpt tweet_1_clean
           [bueno] [malo] [dia] [bueno; malo; dia]);
    [discriminate | | | | ]; (split; [discriminate | reflexivity]).
Defined.

Lemma process_tweet_validation_witness :
  process_tweet ucd_excerpt [] [bueno] [malo] [dia] [bueno; malo; dia]
  = Err EmptyTweet.
Proof.
  now apply (process_tweet_validation ucd_excerpt []
               [bueno] [malo] [dia] [bueno; malo; dia]).
Defined.
